(** * Task-management shortcourse: validation, Task entity and repositories

    A shallow embedding of the JavaScript sources
      - [src/validation.js]            (field validators, [TaskValidator]),
      - [src/enhanced-task-model.js]   (class [Task]),
      - [src/task-repository.js]       (class [TaskRepository]),
      - the simplified [EnhancedTask] / [TaskRepository] of the step-by-step
        guide,
    and the properties of these that the specification states.

    Conventions of the embedding.
      - A JavaScript value is a [val].  Numbers are the integer-valued
        numbers (a [Z]); NaN, infinities and fractions are outside the model,
        and a sum is computed only where a double holds it exactly
        ([js_plus]).
        A [Date] object is represented by its time value in milliseconds
        ([None] is the Invalid Date); the identity of Date objects is not
        tracked.
      - A string is a sequence of code units below 256 ([string]), read as
        Latin-1; strings with other code units are outside the model.  The
        white space removed by [trim] and the letters mapped by
        [toLowerCase] are those of this range.
      - Arrays and plain objects are mutable and shared by reference: they
        live in a [store] and a value only holds their location.
      - A method is a state transformer that returns either normally or by
        a [throw]; the state reached before a throw is kept.
      - [new Date()] reads the clock: the instant is the parameter [now] of
        every method that reads it.  [generateId()] is a parameter too. *)

From Stdlib Require Import ZArith String Ascii List Lia Bool DecimalString.
From stdpp Require Import base option list strings gmap.

Local Open Scope string_scope.
Local Open Scope Z_scope.

(** Property maps are reasoned about through their lemmas; [simpl] does not
    look inside them. *)
#[global] Arguments insert : simpl never.
#[global] Arguments lookup : simpl never.

(* ===================================================================== *)
(** ** JavaScript values, strings and the store                          *)
(* ===================================================================== *)

Module JS.

Definition loc := nat.

Inductive val :=
| VUndef
| VNull
| VBool (b : bool)
| VNum (n : Z)
| VStr (s : string)
| VDate (ms : option Z)
| VArr (l : loc)
| VObj (l : loc).

(** [ToBoolean]: the falsy values are undefined, null, false, 0 and ''. *)
Definition truthy (v : val) : bool :=
  match v with
  | VUndef | VNull => false
  | VBool b => b
  | VNum n => negb (n =? 0)
  | VStr s => negb (String.eqb s EmptyString)
  | VDate _ | VArr _ | VObj _ => true
  end.

#[global] Instance val_eq_dec : EqDecision val.
Proof. solve_decision. Defined.

(** [a || b] *)
Definition or_else (a b : val) : val := if truthy a then a else b.

(** [a === b].  Arrays and objects are compared by location.  Two Date
    values are never identical (the code never compares dates with ===). *)
Definition strict_eq (a b : val) : bool :=
  match a, b with
  | VUndef, VUndef => true
  | VNull, VNull => true
  | VBool x, VBool y => Bool.eqb x y
  | VNum x, VNum y => x =? y
  | VStr x, VStr y => String.eqb x y
  | VArr x, VArr y => Nat.eqb x y
  | VObj x, VObj y => Nat.eqb x y
  | _, _ => false
  end.

Definition is_string (v : val) : bool :=
  match v with VStr _ => true | _ => false end.

Definition is_number (v : val) : bool :=
  match v with VNum _ => true | _ => false end.

(** *** Strings *)

(** White space and line terminators below 256: tab, line feed, vertical
    tab, form feed, carriage return, space and the no-break space. *)
Definition is_ws (c : ascii) : bool :=
  match nat_of_ascii c with
  | 9%nat | 10%nat | 11%nat | 12%nat | 13%nat | 32%nat | 160%nat => true
  | _ => false
  end.

Fixpoint trim_start (s : string) : string :=
  match s with
  | EmptyString => EmptyString
  | String c r => if is_ws c then trim_start r else s
  end.

Fixpoint trim_end (s : string) : string :=
  match s with
  | EmptyString => EmptyString
  | String c r =>
      match trim_end r with
      | EmptyString => if is_ws c then EmptyString else String c EmptyString
      | r' => String c r'
      end
  end.

(** [s.trim()] *)
Definition trim (s : string) : string := trim_end (trim_start s).

(** The upper-case letters below 256 are A to Z and the Latin-1 letters
    192 to 222 without the multiplication sign 215; each has its lower-case
    form 32 code units further. *)
Definition lower_char (c : ascii) : ascii :=
  let n := nat_of_ascii c in
  if ((Nat.leb 65 n && Nat.leb n 90)
      || (Nat.leb 192 n && Nat.leb n 222 && negb (Nat.eqb n 215)))%bool
  then ascii_of_nat (n + 32) else c.

(** [s.toLowerCase()] *)
Fixpoint toLowerCase (s : string) : string :=
  match s with
  | EmptyString => EmptyString
  | String c r => String (lower_char c) (toLowerCase r)
  end.

(** [s.replace(/c/g, by)]: every occurrence of the character [c]. *)
Fixpoint replace_all (c : ascii) (by_ : string) (s : string) : string :=
  match s with
  | EmptyString => EmptyString
  | String d r =>
      if Ascii.eqb d c then by_ ++ replace_all c by_ r
      else String d (replace_all c by_ r)
  end.

Fixpoint contains_char (c : ascii) (s : string) : bool :=
  match s with
  | EmptyString => false
  | String d r => Ascii.eqb d c || contains_char c r
  end.

Fixpoint is_substring (p s : string) : bool :=
  String.prefix p s
  || match s with
     | EmptyString => false
     | String _ r => is_substring p r
     end.

(** The code units of a string, as one-character strings (what spreading a
    string yields). *)
Fixpoint chars (s : string) : list val :=
  match s with
  | EmptyString => []
  | String c r => VStr (String c EmptyString) :: chars r
  end.

(** *** Objects, and the store of arrays and plain objects *)

(** An object is its map of own properties; reading a property that is not
    there gives [undefined]. *)
Abbreviation obj := (gmap string val).

Definition getp (o : obj) (k : string) : val := default VUndef (o !! k).

(** [k in o] for a plain object *)
Definition has_key (o : obj) (k : string) : bool := bool_decide (is_Some (o !! k)).

Record store := Store {
  arrs : list (list val);
  objs : list obj
}.

Definition empty_store : store := Store [] [].

(** Contents of the array at [l] (a dangling location reads as empty; the
    code never produces one). *)
Definition read_arr (h : store) (l : loc) : list val :=
  default [] (arrs h !! l).

Definition alloc_arr (h : store) (a : list val) : loc * store :=
  (length (arrs h), Store (arrs h ++ [a]) (objs h)).

Definition write_arr (h : store) (l : loc) (a : list val) : store :=
  Store (<[l := a]> (arrs h)) (objs h).

Definition alloc_obj (h : store) (o : obj) : loc * store :=
  (length (objs h), Store (arrs h) (objs h ++ [o])).

Definition read_obj (h : store) (l : loc) : obj :=
  default ∅ (objs h !! l).

(** [arr.includes(x)] and [arr.indexOf(x)] *)
Definition includes (a : list val) (x : val) : bool :=
  existsb (strict_eq x) a.

Fixpoint indexOf (a : list val) (x : val) : option nat :=
  match a with
  | [] => None
  | y :: r => if strict_eq y x then Some 0%nat else option_map S (indexOf r x)
  end.

(** *** [Map]: entries in insertion order, keys compared like [===] *)

Section JsMap.

Context {V : Type}.

Fixpoint map_get (m : list (val * V)) (k : val) : option V :=
  match m with
  | [] => None
  | (k', v) :: r => if strict_eq k' k then Some v else map_get r k
  end.

Definition map_has (m : list (val * V)) (k : val) : bool :=
  match map_get m k with Some _ => true | None => false end.

(** [m.set(k, v)]: an existing key keeps its place; a new one goes last. *)
Fixpoint map_set (m : list (val * V)) (k : val) (v : V) : list (val * V) :=
  match m with
  | [] => [(k, v)]
  | (k', v') :: r =>
      if strict_eq k' k then (k', v) :: r else (k', v') :: map_set r k v
  end.

Fixpoint map_delete (m : list (val * V)) (k : val) : list (val * V) :=
  match m with
  | [] => []
  | (k', v') :: r =>
      if strict_eq k' k then r else (k', v') :: map_delete r k
  end.

(** [Array.from(m.values())] *)
Definition map_values (m : list (val * V)) : list V := map snd m.

(** No key occurs twice, as in every [Map]. *)
Fixpoint unique_keys (m : list (val * V)) : Prop :=
  match m with
  | [] => True
  | (k, _) :: r => map_get r k = None /\ unique_keys r
  end.

End JsMap.

(** [arr.splice(i, 1)] *)
Definition splice1 (a : list val) (i : nat) : list val :=
  take i a ++ drop (S i) a.

(** *** What the host supplies *)

(** [Date.parse] on strings, [toString] of the values that are neither
    strings nor booleans, the local midnight of an instant
    ([setHours(0, 0, 0, 0)]), and the arithmetic of operands that are not
    numbers: [a + b], [v > 0] and [Math.max(0, v)]; the [message] of a
    [TypeError]. *)
Record runtime := Runtime {
  Date_parse : string -> option Z;
  toString_of : store -> val -> string;
  start_of_day : Z -> Z;
  plus_other : val -> val -> val;
  gt_zero_other : val -> bool;
  max0_other : val -> val;
  type_error_message : string
}.

(** [v.toString()] of a value that is neither undefined nor null. *)
Definition to_string (rt : runtime) (h : store) (v : val) : string :=
  match v with
  | VStr s => s
  | VBool true => "true"
  | VBool false => "false"
  | _ => toString_of rt h v
  end.

(** The time value of [new Date(v)].  8.64e15 ms bounds a valid date. *)
Definition new_Date (rt : runtime) (h : store) (v : val) : option Z :=
  match v with
  | VDate d => d
  | VNum n => if (Z.abs n <=? 8640000000000000) then Some n else None
  | VStr s => Date_parse rt s
  | VUndef => None
  | VNull => Some 0
  | VBool b => Some (if b then 1 else 0)
  | VArr _ | VObj _ => Date_parse rt (toString_of rt h v)
  end.

(** The integers a double holds without rounding. *)
Definition safe_integer (x : Z) : bool := Z.abs x <=? 2 ^ 53.

(** [a + b]: exact on numbers when the operands and the sum are integers a
    double holds; every other sum is the host's. *)
Definition js_plus (rt : runtime) (a b : val) : val :=
  match a, b with
  | VNum x, VNum y =>
      if safe_integer x && safe_integer y && safe_integer (x + y)
      then VNum (x + y)
      else plus_other rt a b
  | _, _ => plus_other rt a b
  end.

(** *** Outcomes and the state-and-exception monad *)

(** What is thrown: an [Error] made by the code with its message, or the
    [TypeError] of the language (calling what is not a function, reading a
    property of undefined or null, spreading what is not iterable, assigning
    to a property that only has a getter). *)
Inductive exn :=
| Error (msg : string)
| TypeError.

Inductive result (A : Type) :=
| Ok (a : A)
| Throw (e : exn).
Arguments Ok {A} a.
Arguments Throw {A} e.

(** [error.message] *)
Definition message (rt : runtime) (e : exn) : string :=
  match e with
  | Error m => m
  | TypeError => type_error_message rt
  end.

Definition M (S A : Type) : Type := S -> result A * S.

Definition ret {S A} (a : A) : M S A := fun s => (Ok a, s).
Definition throw {S A} (e : exn) : M S A := fun s => (Throw e, s).
Definition bind {S A B} (m : M S A) (k : A -> M S B) : M S B :=
  fun s => match m s with
           | (Ok a, s') => k a s'
           | (Throw e, s') => (Throw e, s')
           end.
Definition get {S} : M S S := fun s => (Ok s, s).
Definition put {S} (s : S) : M S unit := fun _ => (Ok tt, s).
Definition modify {S} (f : S -> S) : M S unit := fun s => (Ok tt, f s).

Definition is_ok {A} (r : result A) : bool :=
  match r with Ok _ => true | Throw _ => false end.

End JS.

Export JS.
Abbreviation obj := (gmap string val).

Notation "'let*' x ':=' m 'in' k" := (bind m (fun x => k))
  (at level 10, x pattern, m at level 100, k at level 200).
Notation "'exec' m 'in' k" := (bind m (fun _ => k))
  (at level 10, m at level 100, k at level 200).

(* ===================================================================== *)
(** ** The Task entity ([src/enhanced-task-model.js])                    *)
(* ===================================================================== *)

Module TaskModel.

(** A method runs on the receiver [this] (its own properties) and the
    store. *)
Record tstate := TState {
  this : obj;
  heap : store
}.

Definition setp (k : string) (v : val) : M tstate unit :=
  modify (fun s => TState (<[k := v]> (this s)) (heap s)).

Definition readp (k : string) : M tstate val :=
  fun s => (Ok (getp (this s) k), s).

Definition new_array (a : list val) : M tstate val :=
  fun s => let (l, h) := alloc_arr (heap s) a in (Ok (VArr l), TState (this s) h).

Definition new_object (o : obj) : M tstate val :=
  fun s => let (l, h) := alloc_obj (heap s) o in (Ok (VObj l), TState (this s) h).

Definition contents (l : loc) : M tstate (list val) :=
  fun s => (Ok (read_arr (heap s) l), s).

Definition store_arr (l : loc) (a : list val) : M tstate unit :=
  modify (fun s => TState (this s) (write_arr (heap s) l a)).

(** The elements that [[...v]] iterates: an array or a string; anything
    else is not iterable. *)
Definition spread (v : val) : M tstate (list val) :=
  match v with
  | VArr l => contents l
  | VStr s => ret (chars s)
  | _ => throw TypeError
  end.

(** [[...(v || [])]] *)
Definition copy_or_empty (v : val) : M tstate val :=
  let* a := (if truthy v then spread v else ret []) in
  new_array a.

Definition str_of (v : val) : string :=
  match v with VStr s => s | _ => EmptyString end.

(** [!v || typeof v !== 'string' || v.trim() === ''] *)
Definition not_a_filled_string (v : val) : bool :=
  negb (truthy v) || negb (is_string v) || String.eqb (trim (str_of v)) EmptyString.

Section Methods.

Variable rt : runtime.

Definition validPriorities : list val :=
  [VStr "low"; VStr "medium"; VStr "high"; VStr "urgent"].

Definition validatePriority (p : val) : M tstate val :=
  if negb (includes validPriorities p) then throw (Error "Invalid priority")
  else ret p.

Definition normalizeCategory (c : val) : M tstate val :=
  fun s => (Ok (VStr (toLowerCase (trim (to_string rt (heap s) (or_else c (VStr "general")))))), s).

(** [constructor(title, description = '', userId, options = {})]; [fresh]
    is what [generateId()] returns. *)
Definition constructor (fresh : string) (now : Z)
    (title description userId : val) (options : obj) : M tstate unit :=
  let description := match description with VUndef => VStr EmptyString | d => d end in
  if not_a_filled_string title then throw (Error "Task title is required")
  else if not_a_filled_string userId then throw (Error "User ID is required")
  else
    exec setp "id" (VStr fresh) in
    exec setp "title" (VStr (trim (str_of title))) in
    let* d := (match or_else description (VStr EmptyString) with
               | VStr s => ret (VStr (trim s))
               | _ => throw TypeError
               end) in
    exec setp "description" d in
    exec setp "userId" (VStr (trim (str_of userId))) in
    exec setp "assignedTo" (or_else (getp options "assignedTo") userId) in
    exec setp "completed" (VBool false) in
    exec setp "status" (VStr "pending") in
    exec setp "completedAt" VNull in
    let* p := validatePriority (or_else (getp options "priority") (VStr "medium")) in
    exec setp "priority" p in
    let* c := normalizeCategory (or_else (getp options "category") (VStr "general")) in
    exec setp "category" c in
    exec setp "createdAt" (VDate (Some now)) in
    exec setp "updatedAt" (VDate (Some now)) in
    let* due := (fun s => (Ok (if truthy (getp options "dueDate")
                               then VDate (new_Date rt (heap s) (getp options "dueDate"))
                               else VNull), s)) in
    exec setp "dueDate" due in
    exec setp "estimatedHours" (or_else (getp options "estimatedHours") VNull) in
    exec setp "actualHours" (or_else (getp options "actualHours") VNull) in
    let* a := new_array [] in
    exec setp "_tags" a in
    let* a := new_array [] in
    exec setp "_notes" a in
    let* a := new_array [] in
    exec setp "_dependencies" a in
    exec setp "projectId" (or_else (getp options "projectId") VNull) in
    exec setp "parentTaskId" (or_else (getp options "parentTaskId") VNull) in
    setp "recurrence" (or_else (getp options "recurrence") VNull).

(** [new Task(...)]: the instance, or the exception. *)
Definition new_Task (fresh : string) (now : Z)
    (title description userId : val) (options : obj) (h : store)
  : result obj * store :=
  match constructor fresh now title description userId options (TState ∅ h) with
  | (Ok _, s) => (Ok (this s), heap s)
  | (Throw e, s) => (Throw e, heap s)
  end.

(** *** Accessors *)

Definition get_tags : M tstate val :=
  let* v := readp "_tags" in copy_or_empty v.
Definition get_notes : M tstate val :=
  let* v := readp "_notes" in copy_or_empty v.
Definition get_dependencies : M tstate val :=
  let* v := readp "_dependencies" in copy_or_empty v.

(** [Array.isArray(value) ? [...value] : []] *)
Definition copy_if_array (value : val) : M tstate val :=
  match value with
  | VArr l => let* a := contents l in new_array a
  | _ => new_array []
  end.

Definition set_tags (value : val) : M tstate unit :=
  let* a := copy_if_array value in setp "_tags" a.
Definition set_notes (value : val) : M tstate unit :=
  let* a := copy_if_array value in setp "_notes" a.
Definition set_dependencies (value : val) : M tstate unit :=
  let* a := copy_if_array value in setp "_dependencies" a.

(** *** Mutators *)

Definition touch (now : Z) : M tstate unit := setp "updatedAt" (VDate (Some now)).

Definition updateTitle (now : Z) (newTitle : val) : M tstate unit :=
  if not_a_filled_string newTitle then throw (Error "Task title cannot be empty")
  else exec setp "title" (VStr (trim (str_of newTitle))) in touch now.

Definition updateDescription (now : Z) (newDescription : val) : M tstate unit :=
  let* d := (fun s => (Ok (VStr (trim (to_string rt (heap s) (or_else newDescription (VStr EmptyString))))), s)) in
  exec setp "description" d in touch now.

Definition updatePriority (now : Z) (newPriority : val) : M tstate unit :=
  let* p := validatePriority newPriority in
  exec setp "priority" p in touch now.

Definition markComplete (now : Z) : M tstate unit :=
  let* c := readp "completed" in
  if negb (truthy c) then
    exec setp "completed" (VBool true) in
    exec setp "status" (VStr "completed") in
    exec setp "completedAt" (VDate (Some now)) in
    touch now
  else ret tt.

Definition markIncomplete (now : Z) : M tstate unit :=
  let* c := readp "completed" in
  if truthy c then
    exec setp "completed" (VBool false) in
    exec setp "status" (VStr "pending") in
    exec setp "completedAt" VNull in
    touch now
  else ret tt.

Definition assignTo (now : Z) (userId : val) : M tstate unit :=
  if not_a_filled_string userId then throw (Error "Valid user ID is required")
  else exec setp "assignedTo" (VStr (trim (str_of userId))) in touch now.

Definition reassignToOwner (now : Z) : M tstate unit :=
  let* u := readp "userId" in
  exec setp "assignedTo" u in touch now.

Definition setCategory (now : Z) (category : val) : M tstate unit :=
  if not_a_filled_string category then throw (Error "Category must be a non-empty string")
  else
    let* c := normalizeCategory category in
    exec setp "category" c in touch now.

(** [this._tags.includes(x)] on the stored value itself: an array, or a
    string (whose [includes] is the substring test); any other value has no
    such method. *)
Definition own_includes (recv : val) (x : string) : M tstate bool :=
  match recv with
  | VArr l => let* a := contents l in ret (includes a (VStr x))
  | VStr r => ret (is_substring x r)
  | _ => throw TypeError
  end.

Definition addTag (now : Z) (tag : val) : M tstate unit :=
  if not_a_filled_string tag then throw (Error "Tag must be a non-empty string")
  else
    let normalizedTag := toLowerCase (trim (str_of tag)) in
    let* tags := readp "_tags" in
    let* found := own_includes tags normalizedTag in
    if negb found then
      match tags with
      | VArr l =>
          let* a := contents l in
          exec store_arr l (a ++ [VStr normalizedTag]) in
          touch now
      | _ => throw TypeError
      end
    else ret tt.

(** [tag.toString()]: undefined and null have no properties. *)
Definition toString_call (v : val) : M tstate string :=
  match v with
  | VUndef | VNull => throw TypeError
  | _ => fun s => (Ok (to_string rt (heap s) v), s)
  end.

Definition removeTag (now : Z) (tag : val) : M tstate unit :=
  let* str := toString_call tag in
  let normalizedTag := toLowerCase (trim str) in
  let* tags := readp "_tags" in
  match tags with
  | VArr l =>
      let* a := contents l in
      match indexOf a (VStr normalizedTag) with
      | Some index =>
          exec store_arr l (splice1 a index) in
          touch now
      | None => ret tt
      end
  | VStr r =>
      if is_substring normalizedTag r
      then throw TypeError
      else ret tt
  | _ => throw TypeError
  end.

Definition clearTags (now : Z) : M tstate unit :=
  let* a := new_array [] in
  exec setp "_tags" a in touch now.

Definition hasTag (tag : val) : M tstate bool :=
  let* str := toString_call tag in
  let* tags := readp "_tags" in
  own_includes tags (toLowerCase (trim str)).

Definition setDueDate (now : Z) (dueDate : val) : M tstate unit :=
  exec (if truthy dueDate then
          let* d := (fun s => (Ok (new_Date rt (heap s) dueDate), s)) in
          match d with
          | None => throw (Error "Invalid due date")
          | Some _ => setp "dueDate" (VDate d)
          end
        else setp "dueDate" VNull) in
  touch now.

Definition clearDueDate (now : Z) : M tstate unit :=
  exec setp "dueDate" VNull in touch now.

(** [get isOverdue]: both dates are moved to their local midnight; a
    comparison with an invalid date is false. *)
Definition isOverdue (now : Z) : M tstate bool :=
  let* due := readp "dueDate" in
  let* c := readp "completed" in
  if negb (truthy due) || truthy c then ret false
  else
    let* d := (fun s => (Ok (new_Date rt (heap s) due), s)) in
    match d with
    | Some ms => ret (start_of_day rt ms <? start_of_day rt now)
    | None => ret false
    end.

(** [hours !== null && (typeof hours !== 'number' || hours < 0)] *)
Definition bad_hours_or_null (hours : val) : bool :=
  negb (strict_eq hours VNull)
  && (negb (is_number hours) || match hours with VNum n => n <? 0 | _ => false end).

Definition setEstimatedHours (now : Z) (hours : val) : M tstate unit :=
  if bad_hours_or_null hours then throw (Error "Hours must be a positive number")
  else exec setp "estimatedHours" hours in touch now.

Definition setActualHours (now : Z) (hours : val) : M tstate unit :=
  if bad_hours_or_null hours then throw (Error "Hours must be a positive number")
  else exec setp "actualHours" hours in touch now.

Definition addTimeSpent (now : Z) (hours : val) : M tstate unit :=
  match hours with
  | VNum n =>
      if n <? 0 then throw (Error "Hours must be a positive number")
      else
        let* a := readp "actualHours" in
        exec setp "actualHours" (js_plus rt (or_else a (VNum 0)) (VNum n)) in
        touch now
  | _ => throw (Error "Hours must be a positive number")
  end.

Definition validStatuses : list val :=
  [VStr "pending"; VStr "in-progress"; VStr "completed"; VStr "cancelled";
   VStr "on-hold"].

Definition setStatus (now : Z) (status : val) : M tstate unit :=
  if negb (includes validStatuses status) then throw (Error "Invalid status")
  else
    exec setp "status" status in
    let* c := readp "completed" in
    exec (if strict_eq status (VStr "completed") && negb (truthy c)
          then markComplete now
          else if negb (strict_eq status (VStr "completed")) && truthy c
          then markIncomplete now
          else ret tt) in
    touch now.

(** [this.notes.push(note)], [this.dependencies.push(id)]: the receiver of
    [push] is what the accessor returned. *)
Definition push_to (arr : val) (x : val) : M tstate unit :=
  match arr with
  | VArr l => let* a := contents l in store_arr l (a ++ [x])
  | _ => throw TypeError
  end.

Definition addNote (fresh : string) (now : Z) (content author : val)
  : M tstate unit :=
  let* author := (match author with VUndef => readp "userId" | a => ret a end) in
  if not_a_filled_string content then throw (Error "Note must be a non-empty string")
  else
    let* note := new_object
      (<["createdAt" := VDate (Some now)]>
        (<["author" := author]>
          (<["content" := VStr (trim (str_of content))]>
            (<["id" := VStr fresh]> ∅)))) in
    let* notes := get_notes in
    exec push_to notes note in
    touch now.

(** [note.id] for an element of the notes array. *)
Definition note_id (h : store) (note : val) : result val :=
  match note with
  | VUndef | VNull => Throw TypeError
  | VObj l => Ok (getp (read_obj h l) "id")
  | _ => Ok VUndef
  end.

(** [notes.findIndex(note => note.id === noteId)] *)
Fixpoint find_note (h : store) (noteId : val) (a : list val) : result (option nat) :=
  match a with
  | [] => Ok None
  | note :: r =>
      match note_id h note with
      | Throw e => Throw e
      | Ok i =>
          if strict_eq i noteId then Ok (Some 0%nat)
          else match find_note h noteId r with
               | Ok o => Ok (option_map S o)
               | Throw e => Throw e
               end
      end
  end.

Definition splice_at (arr : val) (i : nat) : M tstate unit :=
  match arr with
  | VArr l => let* a := contents l in store_arr l (splice1 a i)
  | _ => throw TypeError
  end.

Definition removeNote (now : Z) (noteId : val) : M tstate unit :=
  let* notes := get_notes in
  let* a := spread notes in
  let* index := (fun s => (find_note (heap s) noteId a, s)) in
  match index with
  | Some i =>
      let* notes' := get_notes in
      exec splice_at notes' i in
      touch now
  | None => ret tt
  end.

Definition addDependency (now : Z) (taskId : val) : M tstate unit :=
  let* me := readp "id" in
  if strict_eq taskId me then throw (Error "Task cannot depend on itself")
  else
    let* deps := get_dependencies in
    let* a := spread deps in
    if negb (includes a taskId) then
      let* deps' := get_dependencies in
      exec push_to deps' taskId in
      touch now
    else ret tt.

Definition removeDependency (now : Z) (taskId : val) : M tstate unit :=
  let* deps := get_dependencies in
  let* a := spread deps in
  match indexOf a taskId with
  | Some index =>
      let* deps' := get_dependencies in
      exec splice_at deps' index in
      touch now
  | None => ret tt
  end.

Definition hasDependency (taskId : val) : M tstate bool :=
  let* deps := get_dependencies in
  let* a := spread deps in
  ret (includes a taskId).

(** *** Serialization *)

(** [[...this.tags]]: the accessor's copy is copied once more. *)
Definition copy_of (getter : M tstate val) : M tstate val :=
  let* v := getter in
  let* a := spread v in
  new_array a.

Definition data_fields_before : list string :=
  ["id"; "title"; "description"; "userId"; "assignedTo"; "completed";
   "status"; "completedAt"; "priority"; "category"; "createdAt"; "updatedAt";
   "dueDate"; "estimatedHours"; "actualHours"].

Definition data_fields_after : list string :=
  ["projectId"; "parentTaskId"; "recurrence"].

Definition copy_fields (ks : list string) (from to : obj) : obj :=
  foldl (fun o k => <[k := getp from k]> o) to ks.

Definition toJSON : M tstate obj :=
  let* t := (fun s => (Ok (this s), s)) in
  let json := copy_fields data_fields_before t ∅ in
  let* tags := copy_of get_tags in
  let* notes := copy_of get_notes in
  let* deps := copy_of get_dependencies in
  let json := <["dependencies" := deps]> (<["notes" := notes]> (<["tags" := tags]> json)) in
  ret (copy_fields data_fields_after t json).

Definition fromJSON_options (json : obj) : obj :=
  foldl (fun o k => <[k := getp json k]> o) ∅
    ["assignedTo"; "priority"; "category"; "dueDate"; "estimatedHours";
     "actualHours"; "projectId"; "parentTaskId"; "recurrence"].

(** [new Date(v)] as a value *)
Definition date_of (v : val) : M tstate val :=
  fun s => (Ok (VDate (new_Date rt (heap s) v)), s).

(** [static fromJSON(json)]: runs on the task under construction. *)
Definition fromJSON_body (fresh : string) (now : Z) (json : obj) : M tstate unit :=
  exec constructor fresh now (getp json "title") (getp json "description")
         (getp json "userId") (fromJSON_options json) in
  exec setp "id" (getp json "id") in
  exec setp "completed" (getp json "completed") in
  exec setp "status" (getp json "status") in
  let* c := (if truthy (getp json "completedAt")
             then date_of (getp json "completedAt") else ret VNull) in
  exec setp "completedAt" c in
  let* d := date_of (getp json "createdAt") in
  exec setp "createdAt" d in
  let* d := date_of (getp json "updatedAt") in
  exec setp "updatedAt" d in
  let* a := copy_or_empty (getp json "tags") in
  exec setp "_tags" a in
  let* a := copy_or_empty (getp json "notes") in
  exec setp "_notes" a in
  let* a := copy_or_empty (getp json "dependencies") in
  setp "_dependencies" a.

Definition fromJSON (fresh : string) (now : Z) (json : obj) (h : store)
  : result obj * store :=
  match fromJSON_body fresh now json (TState ∅ h) with
  | (Ok _, s) => (Ok (this s), heap s)
  | (Throw e, s) => (Throw e, heap s)
  end.

(** [clone()]: [fresh1] is the id the constructor draws, [fresh2] the id of
    the clone. *)
Definition clone (fresh1 fresh2 : string) (now : Z) (s : tstate)
  : result obj * tstate :=
  match toJSON s with
  | (Throw e, s') => (Throw e, s')
  | (Ok json, s') =>
      match fromJSON fresh1 now json (heap s') with
      | (Throw e, h) => (Throw e, TState (this s') h)
      | (Ok cloned, h) =>
          (Ok (<["status" := VStr "pending"]>
                (<["completed" := VBool false]>
                  (<["completedAt" := VNull]>
                    (<["updatedAt" := VDate (Some now)]>
                      (<["createdAt" := VDate (Some now)]>
                        (<["id" := VStr fresh2]> cloned)))))),
           TState (this s') h)
      end
  end.

(** [Task.fromJSON(task.toJSON())] *)
Definition round_trip (fresh : string) (now : Z) (s : tstate) : result obj :=
  match toJSON s with
  | (Ok json, s') => fst (fromJSON fresh now json (heap s'))
  | (Throw e, _) => Throw e
  end.

(** The calls that change a task: the methods and the three setters. *)
Inductive call :=
| UpdateTitle (newTitle : val)
| UpdateDescription (newDescription : val)
| UpdatePriority (newPriority : val)
| MarkComplete
| MarkIncomplete
| AssignTo (userId : val)
| ReassignToOwner
| SetCategory (category : val)
| AddTag (tag : val)
| RemoveTag (tag : val)
| ClearTags
| SetDueDate (dueDate : val)
| ClearDueDate
| SetEstimatedHours (hours : val)
| SetActualHours (hours : val)
| AddTimeSpent (hours : val)
| SetStatus (status : val)
| AddNote (fresh : string) (content author : val)
| RemoveNote (noteId : val)
| AddDependency (taskId : val)
| RemoveDependency (taskId : val)
| SetTags (value : val)
| SetNotes (value : val)
| SetDependencies (value : val).

Definition run (now : Z) (c : call) : M tstate unit :=
  match c with
  | UpdateTitle v => updateTitle now v
  | UpdateDescription v => updateDescription now v
  | UpdatePriority v => updatePriority now v
  | MarkComplete => markComplete now
  | MarkIncomplete => markIncomplete now
  | AssignTo v => assignTo now v
  | ReassignToOwner => reassignToOwner now
  | SetCategory v => setCategory now v
  | AddTag v => addTag now v
  | RemoveTag v => removeTag now v
  | ClearTags => clearTags now
  | SetDueDate v => setDueDate now v
  | ClearDueDate => clearDueDate now
  | SetEstimatedHours v => setEstimatedHours now v
  | SetActualHours v => setActualHours now v
  | AddTimeSpent v => addTimeSpent now v
  | SetStatus v => setStatus now v
  | AddNote fresh content author => addNote fresh now content author
  | RemoveNote v => removeNote now v
  | AddDependency v => addDependency now v
  | RemoveDependency v => removeDependency now v
  | SetTags v => set_tags v
  | SetNotes v => set_notes v
  | SetDependencies v => set_dependencies v
  end.

End Methods.

(** [completed == (status == 'completed')], and [completedAt != null] if
    and only if [completed == true]. *)
Definition status_inv (t : obj) : Prop :=
  getp t "completed" = VBool (strict_eq (getp t "status") (VStr "completed"))
  /\ (getp t "completedAt" <> VNull <-> getp t "completed" = VBool true).

(** The own properties a call may assign. *)
Definition writes (c : call) : list string :=
  match c with
  | UpdateTitle _ => ["title"; "updatedAt"]
  | UpdateDescription _ => ["description"; "updatedAt"]
  | UpdatePriority _ => ["priority"; "updatedAt"]
  | MarkComplete | MarkIncomplete | SetStatus _ =>
      ["completed"; "status"; "completedAt"; "updatedAt"]
  | AssignTo _ | ReassignToOwner => ["assignedTo"; "updatedAt"]
  | SetCategory _ => ["category"; "updatedAt"]
  | AddTag _ | RemoveTag _ => ["updatedAt"]
  | ClearTags => ["_tags"; "updatedAt"]
  | SetDueDate _ | ClearDueDate => ["dueDate"; "updatedAt"]
  | SetEstimatedHours _ => ["estimatedHours"; "updatedAt"]
  | SetActualHours _ | AddTimeSpent _ => ["actualHours"; "updatedAt"]
  | AddNote _ _ _ | RemoveNote _ | AddDependency _ | RemoveDependency _ =>
      ["updatedAt"]
  | SetTags _ => ["_tags"]
  | SetNotes _ => ["_notes"]
  | SetDependencies _ => ["_dependencies"]
  end.

(** What the constructor guarantees about the identifying fields and the
    priority, and every call keeps. *)
Definition entity_inv (t : obj) : Prop :=
  (exists s, getp t "title" = VStr s /\ s <> EmptyString)
  /\ (exists u, getp t "userId" = VStr u /\ u <> EmptyString)
  /\ includes validPriorities (getp t "priority") = true.

(** A small logic for the receiver.  [tracks o m Φ]: run from a state whose
    receiver is [o], [m] either throws or ends in a state whose receiver
    satisfies [Φ].  [leaves_this m]: [m] never assigns a property of the
    receiver. *)
Definition tracks {A} (o : obj) (m : M tstate A) (Φ : obj -> Prop) : Prop :=
  forall s, this s = o ->
    match m s with
    | (Ok _, s') => Φ (this s')
    | (Throw _, _) => True
    end.

Definition leaves_this {A} (m : M tstate A) : Prop :=
  forall s, this (snd (m s)) = this s.

(** *** Reading the outcome of a method *)

Definition outcome {A} (r : result A * tstate) : result A := fst r.
Definition after {A} (r : result A * tstate) : tstate := snd r.

(** The elements of a stored collection ([_tags], [_notes],
    [_dependencies]) of the receiver. *)
Definition stored (k : string) (s : tstate) : list val :=
  match getp (this s) k with
  | VArr l => read_arr (heap s) l
  | _ => []
  end.

(** The properties the completion state lives in, and what it means for a
    method to leave a set of properties alone. *)
Definition status_keys : list string := ["completed"; "status"; "completedAt"].

Definition keeps (ks : list string) (m : M tstate unit) : Prop :=
  forall s k, k ∈ ks -> getp (this (after (m s))) k = getp (this s) k.

(** The receiver holds, under [k], a reference to an array of the store. *)
Definition owns (s : tstate) (k : string) : Prop :=
  exists l, getp (this s) k = VArr l /\ (l < length (arrs (heap s)))%nat.

Definition collection_keys : list string := ["_tags"; "_notes"; "_dependencies"].

(** The three collections of a task are arrays of the store, as the
    constructor, the setters and [fromJSON] leave them. *)
Definition well_formed (s : tstate) : Prop :=
  owns s "_tags" /\ owns s "_notes" /\ owns s "_dependencies".

(** The store [h'] has the arrays of [h], unchanged, and maybe more. *)
Definition extends (h h' : store) : Prop :=
  (length (arrs h) <= length (arrs h'))%nat
  /\ forall l, (l < length (arrs h))%nat -> read_arr h' l = read_arr h l.

(** Whatever is written into the array at [l'] afterwards, the task's own
    collections read as they did in [s]. *)
Definition out_of_reach (s : tstate) (h' : store) (l' : loc) : Prop :=
  forall (arr' : list val) (k : string),
    k ∈ collection_keys ->
    stored k (TState (this s) (write_arr h' l' arr')) = stored k s.

(** The accessor [getter] of the collection [k] returns, in [s], a new
    array with the elements of the collection. *)
Definition returns_fresh_copy (getter : M tstate val) (k : string) (s : tstate)
  : Prop :=
  exists l',
    outcome (getter s) = Ok (VArr l')
    /\ this (after (getter s)) = this s
    /\ read_arr (heap (after (getter s))) l' = stored k s
    /\ out_of_reach s (heap (after (getter s))) l'.

(** [toJSON()] holds, under [jk], a new array with the elements of the
    collection [k]. *)
Definition json_holds_fresh_copy (jk k : string) (s : tstate) : Prop :=
  exists json l',
    outcome (toJSON s) = Ok json
    /\ getp json jk = VArr l'
    /\ read_arr (heap (after (toJSON s))) l' = stored k s
    /\ out_of_reach s (heap (after (toJSON s))) l'.

End TaskModel.

(* ===================================================================== *)
(** ** Validation ([src/validation.js])                                  *)
(* ===================================================================== *)

Module Validation.

(** What a strategy's [validate] returns; a result without a
    [sanitizedValue] key has [undefined] there. *)
Record vresult := VResult {
  isValid : bool;
  errors : list string;
  sanitizedValue : val
}.

Definition show_nat (n : nat) : string :=
  NilZero.string_of_uint (Nat.to_uint n).

(** [/<[^>]*>/.test(s)]: at some position a '<', then characters other
    than '>', then a '>'. *)
Fixpoint closes (s : string) : bool :=
  match s with
  | EmptyString => false
  | String c r => if Ascii.eqb c ">" then true else closes r
  end.

Fixpoint has_html_tag (s : string) : bool :=
  match s with
  | EmptyString => false
  | String c r => (Ascii.eqb c "<" && closes r) || has_html_tag r
  end.

(** The double-quote character *)
Definition dquote : ascii := "034"%char.

(** [sanitize(text)], the five [replace] calls in their order, each with
    the replacement the source gives it. *)
Definition sanitize (text : string) : string :=
  replace_all "'" "&#x27;"
    (replace_all dquote (String dquote EmptyString)
      (replace_all ">" ">"
        (replace_all "<" "<"
          (replace_all "&" "&amp;" text)))).

Record TitleValidationStrategy := TitleStrategy {
  minLength : nat;
  maxLength : nat
}.

Definition is_missing (v : val) : bool :=
  strict_eq v VNull || strict_eq v VUndef || strict_eq v (VStr EmptyString).

Definition push_if (c : bool) (e : string) (errs : list string) : list string :=
  if c then errs ++ [e] else errs.

Definition validate_title (st : TitleValidationStrategy) (title : val)
  : result vresult :=
  if is_missing title then Ok (VResult false ["Title is required"] VUndef)
  else match title with
  | VStr s =>
      let trimmed := trim s in
      let errs := push_if (Nat.eqb (String.length trimmed) 0)
                    "Title cannot be empty or only whitespace" [] in
      let errs := push_if (Nat.ltb (String.length trimmed) (minLength st))
                    ("Title must be at least " ++ show_nat (minLength st)
                       ++ " character(s)") errs in
      let errs := push_if (Nat.ltb (maxLength st) (String.length trimmed))
                    ("Title must be no more than " ++ show_nat (maxLength st)
                       ++ " characters") errs in
      let errs := push_if (has_html_tag trimmed)
                    "Title cannot contain HTML tags" errs in
      Ok (VResult (Nat.eqb (length errs) 0) errs (VStr (sanitize trimmed)))
  | _ => Throw TypeError
  end.

Definition validate_description (maxLength : nat) (description : val)
  : result vresult :=
  if is_missing description then Ok (VResult true [] (VStr EmptyString))
  else match description with
  | VStr s =>
      let trimmed := trim s in
      let errs := push_if (Nat.ltb maxLength (String.length trimmed))
                    ("Description must be no more than " ++ show_nat maxLength
                       ++ " characters") [] in
      let errs := push_if (has_html_tag trimmed)
                    "Description cannot contain HTML tags" errs in
      Ok (VResult (Nat.eqb (length errs) 0) errs (VStr (sanitize trimmed)))
  | _ => Throw TypeError
  end.

(** [this.valid] of [PriorityValidationStrategy] *)
Definition valid : list val := [VStr "high"; VStr "medium"; VStr "low"].

Definition validate_priority (priority : val) : result vresult :=
  if negb (truthy priority) then Ok (VResult true [] (VStr "medium"))
  else match priority with
  | VStr s =>
      let normalized := VStr (toLowerCase (trim s)) in
      if negb (includes valid normalized)
      then Ok (VResult false ["Priority must be one of: high, medium, low"] VUndef)
      else Ok (VResult true [] normalized)
  | _ => Throw TypeError
  end.

Section DueDate.

Variable rt : runtime.
Variable h : store.
Variable now : Z.

Definition validate_dueDate (dueDate : val) : result vresult :=
  if negb (truthy dueDate) then Ok (VResult true [] VNull)
  else match new_Date rt h dueDate with
  | None => Ok (VResult false ["Due date must be a valid date"] VUndef)
  | Some date =>
      if date <? start_of_day rt now
      then Ok (VResult false ["Due date must be today or in the future"] VUndef)
      else Ok (VResult true [] dueDate)
  end.

(** What [validateTask] returns. *)
Record validation := Validation {
  v_isValid : bool;
  v_errors : list string;
  v_fieldResults : gmap string vresult;
  v_sanitizedData : obj
}.

(** The state of [validateTask] while it runs: [errors], [fieldResults],
    [sanitizedData]. *)
Record acc := Acc {
  a_errors : list string;
  a_fieldResults : gmap string vresult;
  a_sanitizedData : obj
}.

(** One validated field: its result is recorded, and either its errors are
    appended with the field's name in front or its sanitized value is
    kept. *)
Definition record_field (name : string) (r : vresult) (a : acc) : acc :=
  if negb (isValid r)
  then Acc (a_errors a ++ map (fun e => name ++ ": " ++ e) (errors r))
           (<[name := r]> (a_fieldResults a)) (a_sanitizedData a)
  else Acc (a_errors a) (<[name := r]> (a_fieldResults a))
           (<[name := sanitizedValue r]> (a_sanitizedData a)).

Definition optional_field (task : obj) (name : string)
    (validate : val -> result vresult) (absent : val) (a : acc) : result acc :=
  if has_key task name then
    match validate (getp task name) with
    | Ok r => Ok (record_field name r a)
    | Throw e => Throw e
    end
  else Ok (Acc (a_errors a) (a_fieldResults a) (<[name := absent]> (a_sanitizedData a))).

Definition validateTask (task : obj) : result validation :=
  match validate_title (TitleStrategy 1 100) (getp task "title") with
  | Throw e => Throw e
  | Ok r =>
      let a := record_field "title" r (Acc [] ∅ ∅) in
      match optional_field task "description" (validate_description 500) (VStr EmptyString) a with
      | Throw e => Throw e
      | Ok a =>
          match optional_field task "priority" validate_priority (VStr "medium") a with
          | Throw e => Throw e
          | Ok a =>
              match optional_field task "dueDate" validate_dueDate VNull a with
              | Throw e => Throw e
              | Ok a =>
                  Ok (Validation (Nat.eqb (length (a_errors a)) 0) (a_errors a)
                        (a_fieldResults a) (a_sanitizedData a))
              end
          end
      end
  end.

(** [validateTaskUpdate(updates)]: [{ ...updates }] has the keys and values
    of [updates]. *)
Definition validateTaskUpdate (updates : obj) : result validation :=
  let mockTask := updates in
  validateTask mockTask.

End DueDate.

End Validation.

(* ===================================================================== *)
(** ** The task repository ([src/task-repository.js])                    *)
(* ===================================================================== *)

Module Repository.

Import TaskModel.

(** The tasks of a repository are instances of [Task], keyed by their id.
    The storage adapter's [save(data)], given the serialized tasks and the
    instant of [lastSaved]: it returns or throws.  Listeners are outside the
    model; what [emit] is called with is recorded in [events]. *)
Record repo := Repo {
  tasks : list (val * obj);
  events : list (string * val);
  storage : option (list obj -> Z -> result unit);
  rheap : store
}.

(** [new TaskRepository(storage)] *)
Definition new_repo (storage : option (list obj -> Z -> result unit)) (h : store)
  : repo := Repo [] [] storage h.

Definition set_tasks (m : list (val * obj)) : M repo unit :=
  modify (fun r => Repo m (events r) (storage r) (rheap r)).

Definition emit (event : string) (data : val) : M repo unit :=
  modify (fun r => Repo (tasks r) (events r ++ [(event, data)]) (storage r) (rheap r)).

(** A method of a stored task, run on it and on the repository's store. *)
Definition on_task {A} (t : obj) (m : M tstate A) : M repo (A * obj) :=
  fun r =>
    match m (TState t (rheap r)) with
    | (Ok a, s) => (Ok (a, this s), Repo (tasks r) (events r) (storage r) (heap s))
    | (Throw e, s) => (Throw e, Repo (tasks r) (events r) (storage r) (heap s))
    end.

Section Methods.

Variable rt : runtime.

(** [task.toJSON()] for each task; an own property named [toJSON] hides
    the method, a task whose prototype was replaced (see [assign_prop]) does
    not inherit it, and no value of the model can be called. *)
Fixpoint all_toJSON (ts : list obj) : M repo (list obj) :=
  match ts with
  | [] => ret []
  | t :: r =>
      if has_key t "toJSON" || has_key t "__proto__" then throw TypeError
      else
        let* j := on_task t toJSON in
        let* js := all_toJSON r in
        ret (fst j :: js)
  end.

Definition saveToStorage (now : Z) : M repo unit :=
  fun r =>
    match storage r with
    | None => (Throw (Error "No storage configured"), r)
    | Some save =>
        match all_toJSON (map_values (tasks r)) r with
        | (Throw e, r') =>
            (Throw (Error ("Failed to save to storage: " ++ message rt e)), r')
        | (Ok data, r') =>
            match save data now with
            | Ok _ => (Ok tt, r')
            | Throw e =>
                (Throw (Error ("Failed to save to storage: " ++ message rt e)), r')
            end
        end
    end.

(** [if (this.storage) await this.saveToStorage()] *)
Definition save_if_configured (now : Z) : M repo unit :=
  fun r => match storage r with
           | Some _ => saveToStorage now r
           | None => (Ok tt, r)
           end.

Definition create (now : Z) (task : obj) : M repo obj :=
  fun r =>
    if negb (truthy (getp task "id")) then
      (Throw (Error "Valid task object required"), r)
    else if map_has (tasks r) (getp task "id") then
      (Throw (Error "Task with this ID already exists"), r)
    else
      (exec set_tasks (map_set (tasks r) (getp task "id") task) in
       exec emit "taskAdded" (getp task "id") in
       exec save_if_configured now in
       ret task) r.

Definition addTask (now : Z) (task : obj) : M repo obj := create now task.

(** What can be a prototype: an object or [null]. *)
Definition object_or_null (v : val) : bool :=
  match v with
  | VNull | VDate _ | VArr _ | VObj _ => true
  | _ => false
  end.

(** [target.__proto__ = v] while the target inherits the accessor of
    [Object.prototype]: an object or [null] becomes the prototype of the
    target, any other value is ignored.  A task that inherits this accessor
    has no own property of the name, so the model keeps a replaced prototype
    under it: a task with the name [__proto__] among its properties is a
    task whose prototype is no longer that of [Task]. *)
Definition set_prototype (v : val) : M tstate unit :=
  if object_or_null v then setp "__proto__" v else ret tt.

(** [target[k] = v] as [Object.assign] does it on a [Task].  On an instance
    of [Task], [tags], [notes] and [dependencies] have a setter,
    [isOverdue], [daysUntilDue] and [progress] only a getter, and
    [__proto__] is the accessor above.  A task whose prototype was replaced
    by an object inherits the accessor of [__proto__] alone; every other
    name is an ordinary property of it.  A task whose prototype is [null]
    inherits nothing: [__proto__] is an ordinary property too, whose value
    the model does not keep (nothing of the repository reads it). *)
Definition assign_prop (k : string) (v : val) : M tstate unit :=
  fun s =>
    match this s !! "__proto__" with
    | None =>
        if String.eqb k "__proto__" then set_prototype v s
        else if String.eqb k "tags" then set_tags v s
        else if String.eqb k "notes" then set_notes v s
        else if String.eqb k "dependencies" then set_dependencies v s
        else if String.eqb k "isOverdue" || String.eqb k "daysUntilDue"
                || String.eqb k "progress" then throw TypeError s
        else setp k v s
    | Some VNull =>
        if String.eqb k "__proto__" then ret tt s else setp k v s
    | Some _ =>
        if String.eqb k "__proto__" then set_prototype v s else setp k v s
    end.

(** The names that are accessors of a [Task]; a property of any other name
    is a data property. *)
Definition is_accessor (k : string) : bool :=
  String.eqb k "tags" || String.eqb k "notes" || String.eqb k "dependencies"
  || String.eqb k "isOverdue" || String.eqb k "daysUntilDue" || String.eqb k "progress"
  || String.eqb k "__proto__".

(** [Object.assign(task, updates)], the properties of [updates] in their
    order. *)
Fixpoint object_assign (updates : list (string * val)) : M tstate unit :=
  match updates with
  | [] => ret tt
  | (k, v) :: r => exec assign_prop k v in object_assign r
  end.

(** [update(taskId, updates)]; [None] is [null].  The stored task is the
    object that is changed, also when the assignment throws. *)
Definition update (now : Z) (taskId : val) (updates : list (string * val))
  : M repo (option obj) :=
  fun r =>
    match map_get (tasks r) taskId with
    | None => (Ok None, r)
    | Some task =>
        match object_assign updates (TState task (rheap r)) with
        | (Throw e, s) =>
            (Throw e, Repo (map_set (tasks r) taskId (this s)) (events r)
                        (storage r) (heap s))
        | (Ok _, s) =>
            let task' := <["updatedAt" := VDate (Some now)]> (this s) in
            (exec emit "taskUpdated" (getp task' "id") in
             exec save_if_configured now in
             ret (Some task'))
              (Repo (map_set (tasks r) taskId task') (events r) (storage r) (heap s))
        end
    end.

Definition updateTask (now : Z) (taskId : val) (updates : list (string * val))
  : M repo (option obj) := update now taskId updates.


(** [findById(taskId)], [getTask(taskId)]: [None] is [null]. *)
Definition findById (taskId : val) (r : repo) : option obj :=
  map_get (tasks r) taskId.

Definition getTask (taskId : val) (r : repo) : option obj :=
  map_get (tasks r) taskId.

Definition getAllTasks (r : repo) : list obj := map_values (tasks r).

Definition exists_ (taskId : val) (r : repo) : bool := map_has (tasks r) taskId.
Definition hasTask (taskId : val) (r : repo) : bool := map_has (tasks r) taskId.
Definition count (r : repo) : nat := length (tasks r).
Definition size (r : repo) : nat := length (tasks r).

Definition clear (now : Z) : M repo unit :=
  exec set_tasks [] in
  fun r => match storage r with
           | Some _ => (Ok tt, snd (saveToStorage now r))
           | None => (Ok tt, r)
           end.

(** *** Queries *)

Definition by_field (k : string) (v : val) (r : repo) : list obj :=
  filter (fun t => strict_eq (getp t k) v = true) (getAllTasks r).

Definition getTasksByUser (userId : val) := by_field "userId" userId.
Definition getTasksByAssignee (assigneeId : val) := by_field "assignedTo" assigneeId.
Definition getTasksByStatus (status : val) := by_field "status" status.
Definition getTasksByPriority (priority : val) := by_field "priority" priority.
Definition getTasksByCategory (category : val) := by_field "category" category.

Definition getCompletedTasks (r : repo) : list obj :=
  filter (fun t => truthy (getp t "completed") = true) (getAllTasks r).

Definition getIncompleteTasks (r : repo) : list obj :=
  filter (fun t => negb (truthy (getp t "completed")) = true) (getAllTasks r).

(** *** Bulk operations *)



Fixpoint add_each (now : Z) (ts : list obj)
    (results : list obj) (errors : list (obj * string))
  : M repo (list obj * list (obj * string)) :=
  match ts with
  | [] => ret (results, errors)
  | task :: rest =>
      fun r =>
        match addTask now task r with
        | (Ok added, r') => add_each now rest (results ++ [added]) errors r'
        | (Throw e, r') =>
            add_each now rest results (errors ++ [(task, message rt e)]) r'
        end
  end.

Definition addTasks (now : Z) (ts : list obj)
  : M repo (list obj * list (obj * string)) :=
  let* out := add_each now ts [] [] in
  exec save_if_configured now in
  ret out.

End Methods.

(** A partial update that names data properties only, each once (the keys
    of an object are distinct). *)
Definition data_properties (updates : list (string * val)) : Prop :=
  Forall (fun kv => is_accessor kv.1 = false) updates /\ NoDup updates.*1.

End Repository.

(* ===================================================================== *)
(** ** The simplified variant of the step-by-step guide:
       [EnhancedTask] and its [TaskRepository]                           *)
(* ===================================================================== *)

Module Simplified.

Import TaskModel.

Section EnhancedTask.

Variable rt : runtime.

(** [String(v)], as a template literal converts a value. *)
Definition js_String (h : store) (v : val) : string :=
  match v with
  | VUndef => "undefined"
  | VNull => "null"
  | _ => to_string rt h v
  end.

Definition validCategories : list val :=
  [VStr "work"; VStr "personal"; VStr "study"; VStr "health"; VStr "finance";
   VStr "other"].

Definition validPriorities : list val :=
  [VStr "low"; VStr "medium"; VStr "high"; VStr "urgent"].

Definition validStatuses : list val :=
  [VStr "pending"; VStr "in-progress"; VStr "blocked"; VStr "completed";
   VStr "cancelled"].

(** The three validators: the value itself when it is in the list, else
    an [Error] whose message names the value and the list. *)
Definition validate_in (valid : list val) (before between : string) (v : val)
  : M tstate val :=
  fun s =>
    if negb (includes valid v)
    then (Throw (Error (before ++ js_String (heap s) v ++ between)), s)
    else (Ok v, s).

Definition _validateCategory : val -> M tstate val :=
  validate_in validCategories "Kategori tidak valid: "
    ". Harus salah satu dari: work, personal, study, health, finance, other".

Definition _validatePriority : val -> M tstate val :=
  validate_in validPriorities "Prioritas tidak valid: "
    ". Harus salah satu dari: low, medium, high, urgent".

Definition _validateStatus : val -> M tstate val :=
  validate_in validStatuses "Status tidak valid: "
    ". Harus salah satu dari: pending, in-progress, blocked, completed, cancelled".

(** [v.trim()] *)
Definition trim_call (v : val) : M tstate string :=
  match v with
  | VStr s => ret (trim s)
  | _ => throw TypeError
  end.

Definition _updateTimestamp (now : Z) : M tstate unit :=
  setp "_updatedAt" (VDate (Some now)).

(** [v ? new Date(v) : null] *)
Definition date_or_null (v : val) : M tstate val :=
  fun s => (Ok (if truthy v then VDate (new_Date rt (heap s) v) else VNull), s).

Definition constructor (fresh : string) (now : Z)
    (title description ownerId : val) (options : obj) : M tstate unit :=
  let* blank := (if negb (truthy title) then ret true
                 else let* t := trim_call title in ret (String.eqb t EmptyString)) in
  if (blank : bool) then throw (Error "Judul task wajib diisi")
  else if negb (truthy ownerId) then throw (Error "Owner ID wajib diisi")
  else
    exec setp "_id" (VStr fresh) in
    let* t := trim_call title in
    exec setp "_title" (VStr t) in
    let* d := (if truthy description
               then let* d := trim_call description in ret (VStr d)
               else ret (VStr EmptyString)) in
    exec setp "_description" d in
    exec setp "_ownerId" ownerId in
    exec setp "_assigneeId" (or_else (getp options "assigneeId") ownerId) in
    let* c := _validateCategory (or_else (getp options "category") (VStr "personal")) in
    exec setp "_category" c in
    let* tags := (match getp options "tags" with
                  | VArr l => ret (VArr l)
                  | _ => new_array []
                  end) in
    exec setp "_tags" tags in
    let* p := _validatePriority (or_else (getp options "priority") (VStr "medium")) in
    exec setp "_priority" p in
    let* st := _validateStatus (or_else (getp options "status") (VStr "pending")) in
    exec setp "_status" st in
    let* due := date_or_null (getp options "dueDate") in
    exec setp "_dueDate" due in
    exec setp "_createdAt" (VDate (Some now)) in
    exec setp "_updatedAt" (VDate (Some now)) in
    exec setp "_completedAt" VNull in
    exec setp "_estimatedHours" (or_else (getp options "estimatedHours") (VNum 0)) in
    exec setp "_actualHours" (VNum 0) in
    let* a := new_array [] in
    exec setp "_notes" a in
    let* a := new_array [] in
    setp "_attachments" a.

Definition new_EnhancedTask (fresh : string) (now : Z)
    (title description ownerId : val) (options : obj) (h : store)
  : result obj * store :=
  match constructor fresh now title description ownerId options (TState ∅ h) with
  | (Ok _, s) => (Ok (this s), heap s)
  | (Throw e, s) => (Throw e, heap s)
  end.

(** [get isCompleted] *)
Definition isCompleted (t : obj) : bool :=
  strict_eq (getp t "_status") (VStr "completed").

Definition updateTitle (now : Z) (newTitle : val) : M tstate unit :=
  let* blank := (if negb (truthy newTitle) then ret true
                 else let* t := trim_call newTitle in ret (String.eqb t EmptyString)) in
  if (blank : bool) then throw (Error "Judul task tidak boleh kosong")
  else
    let* t := trim_call newTitle in
    exec setp "_title" (VStr t) in
    _updateTimestamp now.

Definition updateDescription (now : Z) (newDescription : val) : M tstate unit :=
  let* d := (if truthy newDescription
             then let* d := trim_call newDescription in ret (VStr d)
             else ret (VStr EmptyString)) in
  exec setp "_description" d in
  _updateTimestamp now.

Definition updateCategory (now : Z) (newCategory : val) : M tstate unit :=
  let* c := _validateCategory newCategory in
  exec setp "_category" c in
  _updateTimestamp now.

Definition updatePriority (now : Z) (newPriority : val) : M tstate unit :=
  let* p := _validatePriority newPriority in
  exec setp "_priority" p in
  _updateTimestamp now.

Definition updateStatus (now : Z) (newStatus : val) : M tstate unit :=
  let* oldStatus := readp "_status" in
  let* st := _validateStatus newStatus in
  exec setp "_status" st in
  exec (if strict_eq newStatus (VStr "completed")
           && negb (strict_eq oldStatus (VStr "completed"))
        then setp "_completedAt" (VDate (Some now))
        else if negb (strict_eq newStatus (VStr "completed"))
        then setp "_completedAt" VNull
        else ret tt) in
  _updateTimestamp now.

Definition setDueDate (now : Z) (dueDate : val) : M tstate unit :=
  let* d := date_or_null dueDate in
  exec setp "_dueDate" d in
  _updateTimestamp now.

Definition assignTo (now : Z) (userId : val) : M tstate unit :=
  exec setp "_assigneeId" userId in
  _updateTimestamp now.

(** [hours > 0] *)
Definition gt_zero (hours : val) : bool :=
  match hours with
  | VNum n => 0 <? n
  | _ => gt_zero_other rt hours
  end.

Definition addTimeSpent (now : Z) (hours : val) : M tstate unit :=
  if gt_zero hours then
    let* a := readp "_actualHours" in
    exec setp "_actualHours" (js_plus rt a hours) in
    _updateTimestamp now
  else ret tt.

(** [Math.max(0, hours)] *)
Definition max0 (hours : val) : val :=
  match hours with
  | VNum n => VNum (Z.max 0 n)
  | _ => max0_other rt hours
  end.

Definition setEstimatedHours (now : Z) (hours : val) : M tstate unit :=
  exec setp "_estimatedHours" (max0 hours) in
  _updateTimestamp now.

(** [_tags] and [_notes] are arrays from the constructor on. *)
Definition addTag (now : Z) (tag : val) : M tstate unit :=
  let* tags := readp "_tags" in
  match tags with
  | VArr l =>
      let* a := contents l in
      if truthy tag && negb (includes a tag) then
        exec store_arr l (a ++ [tag]) in
        _updateTimestamp now
      else ret tt
  | _ => if truthy tag then throw TypeError else ret tt
  end.

Definition removeTag (now : Z) (tag : val) : M tstate unit :=
  let* tags := readp "_tags" in
  match tags with
  | VArr l =>
      let* a := contents l in
      match indexOf a tag with
      | Some index =>
          exec store_arr l (splice1 a index) in
          _updateTimestamp now
      | None => ret tt
      end
  | _ => throw TypeError
  end.

Definition addNote (now : Z) (note : val) : M tstate unit :=
  let* filled := (if truthy note
                  then let* t := trim_call note in ret (negb (String.eqb t EmptyString))
                  else ret false) in
  if (filled : bool) then
    let* t := trim_call note in
    let* o := new_object
      (<["createdAt" := VDate (Some now)]>
        (<["content" := VStr t]>
          (<["id" := VNum now]> ∅))) in
    let* notes := readp "_notes" in
    exec push_to notes o in
    _updateTimestamp now
  else ret tt.

End EnhancedTask.




(** The properties of a task that the fields of a partial update set. *)
Definition field_keys : list string :=
  ["_id"; "_title"; "_description"; "_category"; "_priority"; "_status";
   "_dueDate"; "_assigneeId"; "_estimatedHours"].

(** Whenever the mutator [m] returns, it has set the property [w], to
    [f s v] for the value [v] it is given in the state [s], and left the
    other properties of [field_keys] and the store as they were. *)
Definition writes (w : string) (f : tstate -> val -> val) (m : val -> M tstate unit)
  : Prop :=
  forall v s s', m v s = (Ok tt, s') ->
    heap s' = heap s
    /\ getp (this s') w = f s v
    /\ forall p, p ∈ field_keys -> p <> w -> getp (this s') p = getp (this s) p.

(** [v.trim()] as a value. *)
Definition trimmed (v : val) : val :=
  match v with
  | VStr s => VStr (trim s)
  | _ => v
  end.



(** [completedAt] is set exactly on a completed task. *)
Definition completion_inv (t : obj) : Prop :=
  getp t "_completedAt" <> VNull
  <-> strict_eq (getp t "_status") (VStr "completed") = true.

(** *** [TaskRepository] of the guide

    [_saveTasksToStorage] catches whatever the adapter or the
    serialization throws and changes nothing of the repository, so it does
    not appear in the state. *)

Record repo := Repo {
  tasks : list (val * obj);
  rheap : store
}.

Section TaskRepository.

Variable rt : runtime.

Definition create (fresh : string) (now : Z) (taskData : obj) : M repo obj :=
  fun r =>
    match new_EnhancedTask rt fresh now (getp taskData "title")
            (getp taskData "description") (getp taskData "ownerId") taskData
            (rheap r) with
    | (Throw e, h) => (Throw e, Repo (tasks r) h)
    | (Ok task, h) => (Ok task, Repo (map_set (tasks r) (getp task "_id") task) h)
    end.

(** [findById(id)]: [None] is [null]. *)
Definition findById (id : val) (r : repo) : option obj := map_get (tasks r) id.

Definition findAll (r : repo) : list obj := map_values (tasks r).

(** [if (updates.k !== undefined) task.m(updates.k)] *)
Definition when_given (updates : obj) (k : string) (m : val -> M tstate unit)
  : M tstate unit :=
  if negb (strict_eq (getp updates k) VUndef) then m (getp updates k) else ret tt.

Definition apply_updates (now : Z) (updates : obj) : M tstate unit :=
  exec when_given updates "title" (updateTitle now) in
  exec when_given updates "description" (updateDescription now) in
  exec when_given updates "category" (updateCategory rt now) in
  exec when_given updates "priority" (updatePriority rt now) in
  exec when_given updates "status" (updateStatus rt now) in
  exec when_given updates "dueDate" (setDueDate rt now) in
  exec when_given updates "assigneeId" (assignTo now) in
  exec when_given updates "estimatedHours" (setEstimatedHours rt now) in
  exec when_given updates "addTimeSpent" (addTimeSpent rt now) in
  exec when_given updates "addTag" (addTag now) in
  exec when_given updates "removeTag" (removeTag now) in
  when_given updates "addNote" (addNote now).

(** [update(id, updates)]; [None] is [null].  The stored task is the
    object the mutators change, also when one of them throws. *)
Definition update (now : Z) (id : val) (updates : obj) : M repo (option obj) :=
  fun r =>
    match findById id r with
    | None => (Ok None, r)
    | Some task =>
        match apply_updates now updates (TState task (rheap r)) with
        | (Ok _, s) => (Ok (Some (this s)), Repo (map_set (tasks r) id (this s)) (heap s))
        | (Throw e, s) => (Throw e, Repo (map_set (tasks r) id (this s)) (heap s))
        end
    end.


End TaskRepository.

End Simplified.

(* ===================================================================== *)
(** ** Sample data                                                       *)
(* ===================================================================== *)

Module Samples.

Import TaskModel.

(** A host on which no string parses as a date. *)
Definition rt0 : runtime :=
  Runtime (fun _ => None) (fun _ _ => "[object Object]") (fun ms => ms / 86400000 * 86400000)
    (fun _ _ => VUndef) (fun _ => false) (fun _ => VUndef) "TypeError".

(** [new Task('Write spec', '', 'u1')] with id [task_1], made at instant
    100, in an empty store. *)
Definition fresh_task : tstate :=
  match new_Task rt0 "task_1" 100 (VStr "Write spec") (VStr EmptyString) (VStr "u1") ∅
          empty_store with
  | (Ok t, h) => TState t h
  | (Throw _, h) => TState ∅ h
  end.

(** ... after [addTag(' Docs ')] at instant 150. *)
Definition tagged_task : tstate := after (addTag 150 (VStr " Docs ") fresh_task).

(** ... after [setStatus('completed')] at instant 200. *)
Definition completed_task : tstate := after (setStatus 200 (VStr "completed") fresh_task).

(** A repository without storage that holds the sample task. *)
Definition repo1 : Repository.repo :=
  snd (Repository.create rt0 100 (this fresh_task)
         (Repository.new_repo None (heap fresh_task))).

(** The guide's repository after
    [create({title: 'Write spec', ownerId: 'u1'})]. *)
Definition simple1 : Simplified.repo :=
  snd (Simplified.create rt0 "task_1" 100
         (<["ownerId" := VStr "u1"]> (<["title" := VStr "Write spec"]> ∅))
         (Simplified.Repo [] empty_store)).

End Samples.

(* ===================================================================== *)
(** ** Properties                                                        *)
(* ===================================================================== *)

(** *** Objects, maps and the store *)

Lemma getp_insert_eq (o : obj) (k : string) (v : val) :
  getp (<[k := v]> o) k = v.
Proof. unfold getp. by rewrite lookup_insert_eq. Qed.

Lemma getp_insert_ne (o : obj) (k k' : string) (v : val) :
  k ≠ k' -> getp (<[k := v]> o) k' = getp o k'.
Proof. intros H. unfold getp. by rewrite lookup_insert_ne. Qed.

Lemma getp_empty (k : string) : getp ∅ k = VUndef.
Proof. unfold getp. by rewrite lookup_empty. Qed.

Lemma read_arr_alloc_old (h : store) (a : list val) (l : loc) :
  (l < length (arrs h))%nat -> read_arr (snd (alloc_arr h a)) l = read_arr h l.
Proof.
  intros H. unfold read_arr, alloc_arr. simpl.
  by rewrite lookup_app_l.
Qed.

Lemma read_arr_alloc_new (h : store) (a : list val) :
  read_arr (snd (alloc_arr h a)) (fst (alloc_arr h a)) = a.
Proof.
  unfold read_arr, alloc_arr. simpl.
  rewrite lookup_app_r by lia. by rewrite Nat.sub_diag.
Qed.

Lemma read_arr_write_ne (h : store) (a : list val) (l l' : loc) :
  l ≠ l' -> read_arr (write_arr h l a) l' = read_arr h l'.
Proof.
  intros H. unfold read_arr, write_arr. simpl.
  by rewrite list_lookup_insert_ne.
Qed.

Lemma read_arr_write_eq (h : store) (a : list val) (l : loc) :
  (l < length (arrs h))%nat -> read_arr (write_arr h l a) l = a.
Proof.
  intros H. unfold read_arr, write_arr. simpl.
  by rewrite list_lookup_insert_eq.
Qed.

Lemma length_alloc_arr (h : store) (a : list val) :
  length (arrs (snd (alloc_arr h a))) = S (length (arrs h)).
Proof. unfold alloc_arr. simpl. rewrite length_app. simpl. lia. Qed.

Lemma length_write_arr (h : store) (a : list val) (l : loc) :
  length (arrs (write_arr h l a)) = length (arrs h).
Proof. unfold write_arr. simpl. by rewrite length_insert. Qed.

(** *** [Map] *)

Lemma strict_eq_true (a b : val) : strict_eq a b = true -> a = b.
Proof.
  destruct a, b; simpl; try discriminate; intros H; f_equal.
  - by apply Bool.eqb_prop.
  - by apply Z.eqb_eq.
  - by apply String.eqb_eq.
  - by apply Nat.eqb_eq.
  - by apply Nat.eqb_eq.
Qed.

Section MapFacts.
Context {V : Type}.
Implicit Types (m : list (val * V)) (k : val).

Lemma map_has_get m k : map_has m k = true <-> map_get m k <> None.
Proof. unfold map_has. destruct (map_get m k); split; congruence. Qed.

Lemma map_get_set_found m k v v' :
  map_get m k = Some v -> map_get (map_set m k v') k = Some v'.
Proof.
  induction m as [|[k0 v0] r IH]; simpl; [discriminate|].
  destruct (strict_eq k0 k) eqn:E; simpl; rewrite E; [done | exact IH].
Qed.

Lemma map_get_set_new m k v' :
  strict_eq k k = true -> map_get (map_set m k v') k = Some v'.
Proof.
  intros Hk. induction m as [|[k0 v0] r IH]; simpl; [by rewrite Hk|].
  destruct (strict_eq k0 k) eqn:E; simpl; rewrite E; [done | exact IH].
Qed.






Lemma map_get_set_none m k k' v' :
  map_get m k' = None -> strict_eq k k' = false -> map_get (map_set m k v') k' = None.
Proof.
  intros Hg Hn. induction m as [|[k0 v0] r IH]; simpl in *.
  - by rewrite Hn.
  - destruct (strict_eq k0 k') eqn:E'; [discriminate|].
    destruct (strict_eq k0 k) eqn:E; simpl; rewrite E'; [done | by apply IH].
Qed.

Lemma unique_keys_set m k v : unique_keys m -> unique_keys (map_set m k v).
Proof.
  induction m as [|[k0 v0] r IH]; simpl; [done|]. intros [Hn Hu].
  destruct (strict_eq k0 k) eqn:E; simpl; [done|].
  split; [|by apply IH].
  apply map_get_set_none; [done|].
  destruct (strict_eq k k0) eqn:E'; [|done].
  pose proof (strict_eq_true _ _ E') as ->. congruence.
Qed.

Lemma length_map_delete m k :
  length (map_delete m k) = if map_has m k then pred (length m) else length m.
Proof.
  unfold map_has. induction m as [|[k0 v0] r IH]; simpl; [done|].
  destruct (strict_eq k0 k) eqn:E; simpl; [done|].
  rewrite IH. destruct (map_get r k) eqn:G; [|done].
  destruct r; [discriminate | done].
Qed.

End MapFacts.

(** *** The Task entity *)

Module TaskFacts.

Import TaskModel.

Lemma extends_refl (h : store) : extends h h.
Proof. split; [lia | done]. Qed.

Lemma extends_trans (h1 h2 h3 : store) :
  extends h1 h2 -> extends h2 h3 -> extends h1 h3.
Proof.
  intros [L1 R1] [L2 R2]. split; [lia|].
  intros l Hl. rewrite R2 by lia. by apply R1.
Qed.

Lemma extends_alloc (h : store) (a : list val) : extends h (snd (alloc_arr h a)).
Proof.
  split.
  - rewrite length_alloc_arr. lia.
  - intros l Hl. by apply read_arr_alloc_old.
Qed.

Lemma extends_alloc_r (h h' : store) (a : list val) :
  extends h h' -> extends h (snd (alloc_arr h' a)).
Proof. intros H. eapply extends_trans; [exact H | apply extends_alloc]. Qed.

(** A write beyond the arrays of [h] is not seen through [h]. *)
Lemma extends_write (h h' : store) (l' : loc) (a : list val) :
  extends h h' -> (length (arrs h) <= l')%nat -> extends h (write_arr h' l' a).
Proof.
  intros [L R] Hl. split.
  - rewrite length_write_arr. lia.
  - intros l Hlt. rewrite read_arr_write_ne by lia. by apply R.
Qed.

Lemma stored_extends (s : tstate) (h' : store) (k : string) :
  owns s k -> extends (heap s) h' -> stored k (TState (this s) h') = stored k s.
Proof.
  intros (l & Hk & Hl) [_ R]. unfold stored. simpl. rewrite Hk. by apply R.
Qed.

Lemma owns_of_key (s : tstate) (k : string) :
  well_formed s -> k ∈ collection_keys -> owns s k.
Proof.
  intros (Ht & Hn & Hd) Hk. unfold collection_keys in Hk.
  repeat (apply elem_of_cons in Hk as [-> | Hk]; [assumption|]).
  by apply elem_of_nil in Hk.
Qed.

Lemma out_of_reach_fresh (s : tstate) (h' : store) (l' : loc) :
  well_formed s -> extends (heap s) h' -> (length (arrs (heap s)) <= l')%nat ->
  out_of_reach s h' l'.
Proof.
  intros Hwf Hext Hl arr' k Hk.
  apply stored_extends; [by apply owns_of_key | by apply extends_write].
Qed.

(** What an accessor computes on a collection that is an array. *)
Lemma accessor_eq (k : string) (s : tstate) (l : loc) :
  getp (this s) k = VArr l ->
  (let* v := readp k in copy_or_empty v) s
  = (Ok (VArr (length (arrs (heap s)))),
     TState (this s) (snd (alloc_arr (heap s) (read_arr (heap s) l)))).
Proof.
  intros H. unfold bind, readp, copy_or_empty, bind. rewrite H. reflexivity.
Qed.

Lemma accessor_fresh_copy (k : string) (s : tstate) :
  well_formed s -> owns s k ->
  returns_fresh_copy (let* v := readp k in copy_or_empty v) k s.
Proof.
  intros Hwf (l & Hk & Hl).
  exists (length (arrs (heap s))). unfold outcome, after.
  rewrite (accessor_eq k s l Hk). simpl. repeat split.
  - unfold stored. rewrite Hk.
    apply (read_arr_alloc_new (heap s) (read_arr (heap s) l)).
  - apply out_of_reach_fresh; [done | apply extends_alloc | lia].
Qed.

Lemma owns_extends (s : tstate) (h' : store) (k : string) :
  owns s k -> extends (heap s) h' -> owns (TState (this s) h') k.
Proof.
  intros (l & Hk & Hl) [L _]. exists l. simpl. split; [done | lia].
Qed.

(** [[...this.tags]] and its like: a second copy, beyond the store the
    method started in. *)
Lemma copy_of_spec (k : string) (s : tstate) :
  owns s k ->
  exists l' h',
    copy_of (let* v := readp k in copy_or_empty v) s
    = (Ok (VArr l'), TState (this s) h')
    /\ extends (heap s) h'
    /\ (length (arrs (heap s)) <= l' < length (arrs h'))%nat
    /\ read_arr h' l' = stored k s.
Proof.
  intros (l & Hk & Hl).
  set (h1 := snd (alloc_arr (heap s) (read_arr (heap s) l))).
  exists (length (arrs h1)), (snd (alloc_arr h1 (read_arr h1 (length (arrs (heap s)))))).
  split; [|split; [|split]].
  - unfold copy_of. unfold bind at 1. rewrite (accessor_eq k s l Hk). reflexivity.
  - apply extends_alloc_r, extends_alloc.
  - rewrite length_alloc_arr. subst h1. rewrite length_alloc_arr. lia.
  - rewrite read_arr_alloc_new. unfold stored. rewrite Hk. subst h1.
    apply (read_arr_alloc_new (heap s) (read_arr (heap s) l)).
Qed.

Lemma toJSON_spec (s : tstate) :
  well_formed s ->
  exists json lt ln ld h',
    toJSON s = (Ok json, TState (this s) h')
    /\ extends (heap s) h'
    /\ getp json "tags" = VArr lt /\ getp json "notes" = VArr ln
    /\ getp json "dependencies" = VArr ld
    /\ (length (arrs (heap s)) <= lt)%nat
    /\ (length (arrs (heap s)) <= ln)%nat
    /\ (length (arrs (heap s)) <= ld)%nat
    /\ read_arr h' lt = stored "_tags" s
    /\ read_arr h' ln = stored "_notes" s
    /\ read_arr h' ld = stored "_dependencies" s
    /\ (forall k, k ∈ (data_fields_before ++ data_fields_after)%list ->
          getp json k = getp (this s) k).
Proof.
  intros (Ht & Hn & Hd).
  destruct (copy_of_spec "_tags" s Ht) as (lt & h1 & E1 & X1 & B1 & R1).
  set (s1 := TState (this s) h1).
  assert (Hn1 : owns s1 "_notes") by (by apply owns_extends).
  destruct (copy_of_spec "_notes" s1 Hn1) as (ln & h2 & E2 & X2 & B2 & R2).
  set (s2 := TState (this s) h2).
  assert (Hd2 : owns s2 "_dependencies").
  { apply (owns_extends s h2); [done | by eapply extends_trans]. }
  destruct (copy_of_spec "_dependencies" s2 Hd2) as (ld & h3 & E3 & X3 & B3 & R3).
  simpl in *.
  eexists _, lt, ln, ld, h3.
  split.
  { unfold toJSON. unfold bind at 1. simpl.
    unfold bind at 1. unfold get_tags. rewrite E1.
    unfold bind at 1. unfold get_notes. fold s1. rewrite E2.
    unfold bind at 1. unfold get_dependencies. fold s2. rewrite E3.
    reflexivity. }
  assert (X12 : extends (heap s) h2) by (eapply extends_trans; eassumption).
  assert (X13 : extends (heap s) h3) by (eapply extends_trans; eassumption).
  assert (L1 := proj1 X1). assert (L2 := proj1 X2). assert (L3 := proj1 X3).
  assert (Q2 := proj2 X2). assert (Q3 := proj2 X3).
  split; [exact X13|].
  simpl.
  repeat (rewrite getp_insert_ne by done). rewrite !getp_insert_eq.
  repeat (rewrite getp_insert_ne by done). rewrite !getp_insert_eq.
  repeat (rewrite getp_insert_ne by done). rewrite !getp_insert_eq.
  split; [done|]. split; [done|]. split; [done|].
  split; [lia|]. split; [lia|]. split; [lia|].
  split; [|split; [|split]].
  - rewrite Q3 by lia. rewrite Q2 by lia. exact R1.
  - rewrite Q3 by lia. rewrite R2. by apply stored_extends.
  - rewrite R3. by apply (stored_extends s h2).
  - intros k Hk. unfold data_fields_before, data_fields_after in Hk. simpl in Hk.
    repeat (apply elem_of_cons in Hk as [-> | Hk];
            [repeat (rewrite getp_insert_ne by done); by rewrite getp_insert_eq|]).
    by apply elem_of_nil in Hk.
Qed.

(** C10: the accessors [tags], [notes], [dependencies] and [toJSON()]
    hand out new arrays holding the elements of the task's collections, and
    nothing written into such an array afterwards changes what the task
    stores: the collections read as before. *)
Theorem accessors_return_fresh_copies (s : tstate) :
  well_formed s ->
  returns_fresh_copy get_tags "_tags" s
  /\ returns_fresh_copy get_notes "_notes" s
  /\ returns_fresh_copy get_dependencies "_dependencies" s
  /\ json_holds_fresh_copy "tags" "_tags" s
  /\ json_holds_fresh_copy "notes" "_notes" s
  /\ json_holds_fresh_copy "dependencies" "_dependencies" s.
Proof.
  intros Hwf. assert (Hwf' := Hwf). destruct Hwf' as (Ht & Hn & Hd).
  split; [by apply (accessor_fresh_copy "_tags")|].
  split; [by apply (accessor_fresh_copy "_notes")|].
  split; [by apply (accessor_fresh_copy "_dependencies")|].
  destruct (toJSON_spec s Hwf)
    as (json & lt & ln & ld & h' & E & X & Jt & Jn & Jd & Bt & Bn & Bd & Rt & Rn & Rd & _).
  unfold json_holds_fresh_copy, outcome, after. rewrite E. simpl.
  split; [|split].
  - exists json, lt. repeat split; try done. by apply out_of_reach_fresh.
  - exists json, ln. repeat split; try done. by apply out_of_reach_fresh.
  - exists json, ld. repeat split; try done. by apply out_of_reach_fresh.
Qed.

Lemma tagged_task_well_formed : well_formed Samples.tagged_task.
Proof.
  repeat split; eexists; (split; [vm_compute; reflexivity | vm_compute; lia]).
Qed.

Lemma accessors_return_fresh_copies_witness :
  well_formed Samples.tagged_task
  /\ returns_fresh_copy get_tags "_tags" Samples.tagged_task
  /\ returns_fresh_copy get_notes "_notes" Samples.tagged_task
  /\ returns_fresh_copy get_dependencies "_dependencies" Samples.tagged_task
  /\ json_holds_fresh_copy "tags" "_tags" Samples.tagged_task
  /\ json_holds_fresh_copy "notes" "_notes" Samples.tagged_task
  /\ json_holds_fresh_copy "dependencies" "_dependencies" Samples.tagged_task.
Proof.
  split; [exact tagged_task_well_formed|].
  apply (accessors_return_fresh_copies Samples.tagged_task).
  repeat split; eexists; (split; [vm_compute; reflexivity | vm_compute; lia]).
Defined.

(** [addDependency] with the task's own id: the error, and nothing
    changes. *)
Lemma addDependency_self (now : Z) (d : val) (s : tstate) :
  strict_eq d (getp (this s) "id") = true ->
  addDependency now d s = (Throw (Error "Task cannot depend on itself"), s).
Proof.
  intros H. unfold addDependency, bind, readp. by rewrite H.
Qed.

(** [addDependency] with another id returns normally; the id is pushed to
    a copy that is dropped. *)
Lemma addDependency_other (now : Z) (d : val) (s : tstate) :
  owns s "_dependencies" ->
  strict_eq d (getp (this s) "id") = false ->
  exists h',
    addDependency now d s
    = (Ok tt,
       TState (if includes (stored "_dependencies" s) d then this s
               else <["updatedAt" := VDate (Some now)]> (this s)) h')
    /\ extends (heap s) h'.
Proof.
  intros (l & Hk & Hl) Hd.
  unfold addDependency. unfold bind at 1. unfold readp at 1. rewrite Hd.
  unfold bind at 1. unfold get_dependencies at 1. rewrite (accessor_eq _ s l Hk).
  set (h1 := snd (alloc_arr (heap s) (read_arr (heap s) l))).
  unfold bind at 1. simpl spread. unfold contents at 1. cbn [heap this].
  assert (R1 : read_arr h1 (length (arrs (heap s))) = read_arr (heap s) l).
  { apply (read_arr_alloc_new (heap s) (read_arr (heap s) l)). }
  rewrite R1.
  assert (St : stored "_dependencies" s = read_arr (heap s) l).
  { unfold stored. by rewrite Hk. }
  rewrite St.
  assert (X1 : extends (heap s) h1) by apply extends_alloc.
  destruct (includes (read_arr (heap s) l) d) eqn:Hi; cbn [negb]; cbv beta iota.
  - eexists. split; [reflexivity | exact X1].
  - unfold bind at 1. unfold get_dependencies at 1.
    rewrite (accessor_eq _ (TState (this s) h1) l Hk). cbn [heap this].
    set (h2 := snd (alloc_arr h1 (read_arr h1 l))).
    unfold bind at 1. unfold push_to. unfold bind at 1. unfold contents at 1.
    unfold store_arr, modify, touch, setp, modify. simpl.
    eexists. split; [reflexivity|].
    apply extends_write; [apply extends_alloc_r, X1 | apply X1].
Qed.

(** X5: Whatever id it is given, [addDependency] leaves the dependencies the
    task stores as they were: the new id goes to the copy the accessor
    returned. *)
Lemma addDependency_keeps_stored (now : Z) (d : val) (s : tstate) :
  owns s "_dependencies" ->
  stored "_dependencies" (after (addDependency now d s))
  = stored "_dependencies" s.
Proof.
  intros Ho. destruct (strict_eq d (getp (this s) "id")) eqn:Hd.
  - by rewrite addDependency_self.
  - destruct (addDependency_other now d s Ho Hd) as (h' & E & X).
    rewrite E. unfold after. simpl.
    destruct Ho as (l & Hk & Hl). unfold stored. simpl.
    assert (G : getp (if includes (stored "_dependencies" s) d then this s
                      else <["updatedAt" := VDate (Some now)]> (this s))
                  "_dependencies" = VArr l).
    { destruct (includes _ d); [done | by rewrite getp_insert_ne]. }
    unfold stored in G. rewrite G, Hk. by apply X.
Qed.

Lemma hasDependency_eq (d : val) (s : tstate) :
  owns s "_dependencies" ->
  outcome (hasDependency d s) = Ok (includes (stored "_dependencies" s) d).
Proof.
  intros (l & Hk & Hl). unfold hasDependency.
  unfold bind at 1. unfold get_dependencies. rewrite (accessor_eq _ s l Hk).
  unfold outcome, bind, ret. cbn [spread contents fst heap]. unfold stored. rewrite Hk.
  f_equal. f_equal.
  apply (read_arr_alloc_new (heap s) (read_arr (heap s) l)).
Qed.

(** C1 (the code at the failing input): on [new Task('Write spec', '',
    'u1')], whose id is [task_1], [addDependency('task_2')] returns normally
    and bumps [updatedAt], but the dependency is not recorded:
    [hasDependency('task_2')] is false and the stored dependencies are
    empty. *)
Theorem addDependency_drops_the_dependency :
  let s := Samples.fresh_task in
  let s' := after (addDependency 200 (VStr "task_2") s) in
  getp (this s) "id" = VStr "task_1"
  /\ outcome (addDependency 200 (VStr "task_2") s) = Ok tt
  /\ getp (this s') "updatedAt" = VDate (Some 200)
  /\ outcome (hasDependency (VStr "task_2") s') = Ok false
  /\ stored "_dependencies" s' = [].
Proof. vm_compute. repeat split. Qed.

Ltac in_keys H :=
  unfold status_keys in H;
  repeat (apply elem_of_cons in H as [-> | H]);
  try (by apply elem_of_nil in H).

Ltac unfold_ops :=
  unfold after, bind, setp, readp, modify, ret, throw, touch, new_array, new_object,
    contents, store_arr, copy_or_empty, copy_if_array, spread, push_to, splice_at,
    own_includes, toString_call, validatePriority, normalizeCategory, date_of,
    get_tags, get_notes, get_dependencies in *.

Ltac crunch :=
  repeat (unfold_ops; simpl in *; simplify_eq;
          try (progress (rewrite ?getp_insert_ne by done)); try done;
          try case_match).

Lemma keeps_updateTitle now v : keeps status_keys (updateTitle now v).
Proof. intros s k Hk. in_keys Hk; unfold updateTitle; crunch. Qed.

Lemma keeps_addTag now v : keeps status_keys (addTag now v).
Proof. intros s k Hk. in_keys Hk; unfold addTag; crunch. Qed.

Lemma keeps_removeNote now v : keeps status_keys (removeNote now v).
Proof. intros s k Hk. in_keys Hk; unfold removeNote; crunch. Qed.

Ltac getp_simpl :=
  repeat first [rewrite getp_insert_eq | rewrite getp_insert_ne by done].

Section Invariant.

Variable rt : runtime.

(** Every call except [markComplete], [markIncomplete] and [setStatus]
    leaves [completed], [status] and [completedAt] alone. *)
Lemma keeps_run now c :
  match c with MarkComplete | MarkIncomplete | SetStatus _ => True
  | _ => keeps status_keys (run rt now c) end.
Proof.
  destruct c; try exact I; intros s k Hk; in_keys Hk;
    unfold run, updateTitle, updateDescription, updatePriority, assignTo,
      reassignToOwner, setCategory, addTag, removeTag, clearTags, setDueDate,
      clearDueDate, setEstimatedHours, setActualHours, addTimeSpent, addNote,
      removeNote, addDependency, removeDependency, set_tags, set_notes,
      set_dependencies; crunch.
Qed.

Lemma status_inv_keeps (m : M tstate unit) (s : tstate) :
  keeps status_keys m -> status_inv (this s) -> status_inv (this (after (m s))).
Proof.
  intros K [H1 H2]. unfold status_inv.
  rewrite (K s "completed"), (K s "status"), (K s "completedAt")
    by (unfold status_keys; repeat constructor).
  done.
Qed.

Lemma markComplete_eq now s :
  markComplete now s =
  if truthy (getp (this s) "completed") then (Ok tt, s)
  else (Ok tt, TState (<["updatedAt" := VDate (Some now)]>
                        (<["completedAt" := VDate (Some now)]>
                          (<["status" := VStr "completed"]>
                            (<["completed" := VBool true]> (this s))))) (heap s)).
Proof.
  unfold markComplete, bind, readp.
  destruct (truthy (getp (this s) "completed")); reflexivity.
Qed.

Lemma markIncomplete_eq now s :
  markIncomplete now s =
  if truthy (getp (this s) "completed") then
    (Ok tt, TState (<["updatedAt" := VDate (Some now)]>
                     (<["completedAt" := VNull]>
                       (<["status" := VStr "pending"]>
                         (<["completed" := VBool false]> (this s))))) (heap s))
  else (Ok tt, s).
Proof.
  unfold markIncomplete, bind, readp.
  destruct (truthy (getp (this s) "completed")); reflexivity.
Qed.

Lemma status_inv_markComplete now s :
  status_inv (this s) -> status_inv (this (after (markComplete now s))).
Proof.
  intros H. rewrite markComplete_eq.
  destruct (truthy (getp (this s) "completed")); [done|].
  unfold after, status_inv. simpl. getp_simpl. split; done.
Qed.

Lemma status_inv_markIncomplete now s :
  status_inv (this s) -> status_inv (this (after (markIncomplete now s))).
Proof.
  intros H. rewrite markIncomplete_eq.
  destruct (truthy (getp (this s) "completed")); [|done].
  unfold after, status_inv. simpl. getp_simpl. split; done.
Qed.

(** What [setStatus] computes for a status of the list. *)
Lemma setStatus_eq now status s :
  includes validStatuses status = true ->
  setStatus now status s =
  (Ok tt,
   let c := truthy (getp (this s) "completed") in
   let t1 := <["status" := status]> (this s) in
   let t2 :=
     if strict_eq status (VStr "completed") && negb c then
       <["updatedAt" := VDate (Some now)]>
         (<["completedAt" := VDate (Some now)]>
           (<["status" := VStr "completed"]>
             (<["completed" := VBool true]> t1)))
     else if negb (strict_eq status (VStr "completed")) && c then
       <["updatedAt" := VDate (Some now)]>
         (<["completedAt" := VNull]>
           (<["status" := VStr "pending"]>
             (<["completed" := VBool false]> t1)))
     else t1 in
   TState (<["updatedAt" := VDate (Some now)]> t2) (heap s)).
Proof.
  intros Hv. unfold setStatus. rewrite Hv. cbn [negb].
  unfold bind at 1. unfold setp at 1, modify at 1.
  unfold bind at 1. unfold readp at 1. cbn [this heap].
  rewrite getp_insert_ne by done.
  destruct (truthy (getp (this s) "completed")) eqn:T;
  destruct (strict_eq status (VStr "completed")) eqn:E; cbn [negb andb];
  unfold bind at 1.
  - reflexivity.
  - rewrite markIncomplete_eq. cbn [this heap]. rewrite getp_insert_ne by done.
    rewrite T. reflexivity.
  - rewrite markComplete_eq. cbn [this heap]. rewrite getp_insert_ne by done.
    rewrite T. reflexivity.
  - reflexivity.
Qed.

Lemma setStatus_invalid now status s :
  includes validStatuses status = false ->
  setStatus now status s = (Throw (Error "Invalid status"), s).
Proof. intros Hv. unfold setStatus. by rewrite Hv. Qed.

Lemma status_inv_setStatus now status s :
  status_inv (this s) -> status_inv (this (after (setStatus now status s))).
Proof.
  intros [H1 H2].
  destruct (includes validStatuses status) eqn:Hv.
  2:{ rewrite setStatus_invalid by done. done. }
  rewrite setStatus_eq by done. unfold after. cbn [snd this].
  rewrite H1. cbn [truthy].
  destruct (strict_eq (getp (this s) "status") (VStr "completed")) eqn:C;
  destruct (strict_eq status (VStr "completed")) eqn:E; cbn [negb andb];
  unfold status_inv; getp_simpl.
  - rewrite E. split; [exact H1 | exact H2].
  - split; done.
  - split; done.
  - rewrite E. split; [exact H1 | exact H2].
Qed.

Lemma constructor_status_inv fresh now title description userId options h t h' :
  new_Task rt fresh now title description userId options h = (Ok t, h') ->
  status_inv t.
Proof.
  unfold new_Task, constructor. intros H.
  repeat (unfold_ops; simpl in *; simplify_eq; try case_match);
  unfold status_inv; getp_simpl; split; done.
Qed.

(** C4: every task the constructor produces satisfies, and every mutating
    call (each update/set/add/remove/clear/mark method and the three
    setters) preserves, the invariant [completed == (status ==
    'completed')] and [completedAt != null] iff [completed == true]. *)
Theorem status_invariant :
  (forall fresh now title description userId options h t h',
      new_Task rt fresh now title description userId options h = (Ok t, h') ->
      status_inv t)
  /\ (forall now c s,
        status_inv (this s) -> status_inv (this (after (run rt now c s)))).
Proof.
  split; [apply constructor_status_inv|].
  intros now c s H.
  destruct c;
    try (apply status_inv_keeps; [|exact H];
         match goal with |- keeps _ (run _ _ ?c) => exact (keeps_run now c) end).
  - by apply status_inv_markComplete.
  - by apply status_inv_markIncomplete.
  - by apply status_inv_setStatus.
Qed.
End Invariant.

(** The sample task is what its constructor call returns. *)
Lemma fresh_task_constructed :
  new_Task Samples.rt0 "task_1" 100 (VStr "Write spec") (VStr EmptyString)
    (VStr "u1") ∅ empty_store
  = (Ok (this Samples.fresh_task), heap Samples.fresh_task).
Proof.
  assert (H : is_ok (fst (new_Task Samples.rt0 "task_1" 100 (VStr "Write spec")
                            (VStr EmptyString) (VStr "u1") ∅ empty_store)) = true)
    by (vm_compute; reflexivity).
  unfold Samples.fresh_task.
  destruct (new_Task Samples.rt0 "task_1" 100 (VStr "Write spec")
              (VStr EmptyString) (VStr "u1") ∅ empty_store) as [[t|e] h];
    [reflexivity | discriminate H].
Qed.

Lemma status_invariant_witness :
  status_inv (this Samples.fresh_task)
  /\ status_inv (this (after (run Samples.rt0 200 (SetStatus (VStr "completed"))
                               Samples.fresh_task))).
Proof.
  assert (H : status_inv (this Samples.fresh_task)).
  { exact (proj1 (status_invariant Samples.rt0) "task_1" 100 (VStr "Write spec")
             (VStr EmptyString) (VStr "u1") ∅ empty_store
             (this Samples.fresh_task) (heap Samples.fresh_task)
             fresh_task_constructed). }
  split; [exact H|].
  apply (proj2 (status_invariant Samples.rt0) 200 (SetStatus (VStr "completed"))
           Samples.fresh_task H).
Defined.

(** X6: Leaving the completed state through [setStatus]: whatever non-completed
    status is asked for, [markIncomplete] runs after the assignment and the
    status ends as 'pending'. *)
Lemma setStatus_from_completed (now : Z) (status : val) (s : tstate) :
  includes validStatuses status = true ->
  strict_eq status (VStr "completed") = false ->
  truthy (getp (this s) "completed") = true ->
  getp (this (after (setStatus now status s))) "status" = VStr "pending".
Proof.
  intros Hv Hc Ht. rewrite setStatus_eq by done. unfold after. cbn [snd this].
  rewrite Hc, Ht. cbn [negb andb]. by getp_simpl.
Qed.

Lemma setStatus_from_completed_witness :
  truthy (getp (this Samples.completed_task) "completed") = true
  /\ getp (this (after (setStatus 300 (VStr "on-hold") Samples.completed_task))) "status"
     = VStr "pending".
Proof.
  split; [vm_compute; reflexivity|].
  apply setStatus_from_completed; vm_compute; reflexivity.
Defined.

(** C5 (the code at the failing input): on a task completed by
    [setStatus('completed')], [setStatus('in-progress')] and
    [setStatus('cancelled')] return normally, clear [completed] and
    [completedAt] and bump [updatedAt], but the status they leave is
    'pending', not the one asked for. *)
Theorem setStatus_after_completed_is_pending :
  let s := Samples.completed_task in
  let s1 := after (setStatus 300 (VStr "in-progress") s) in
  let s2 := after (setStatus 300 (VStr "cancelled") s) in
  getp (this s) "status" = VStr "completed"
  /\ getp (this s) "completed" = VBool true
  /\ outcome (setStatus 300 (VStr "in-progress") s) = Ok tt
  /\ getp (this s1) "status" = VStr "pending"
  /\ getp (this s1) "completed" = VBool false
  /\ getp (this s1) "completedAt" = VNull
  /\ getp (this s1) "updatedAt" = VDate (Some 300)
  /\ getp (this s2) "status" = VStr "pending".
Proof. vm_compute. repeat split. Qed.

(** C9 (the code at the failing input): after [setEstimatedHours(0)] the
    task holds 0 hours; [toJSON()] carries the 0, and [fromJSON] of it
    builds a task whose [estimatedHours] is [null]. *)
Theorem round_trip_loses_zero_hours :
  let s := after (setEstimatedHours 200 (VNum 0) Samples.fresh_task) in
  outcome (setEstimatedHours 200 (VNum 0) Samples.fresh_task) = Ok tt
  /\ getp (this s) "estimatedHours" = VNum 0
  /\ match round_trip Samples.rt0 "task_9" 500 s with
     | Ok t' => Some (getp t' "id", getp t' "estimatedHours")
     | Throw _ => None
     end = Some (getp (this s) "id", VNull).
Proof. vm_compute. repeat split. Qed.

Ltac not_in H :=
  unfold writes in H;
  repeat (apply not_elem_of_cons in H as [? H]).

Ltac crunch_frame :=
  repeat (unfold_ops; simpl in *; simplify_eq;
          try (progress (rewrite ?getp_insert_ne by congruence)); try done;
          try case_match).

Section Frame.
Variable rt : runtime.

(** A call assigns only the properties listed for it. *)
Lemma frame_run now c s k :
  k ∉ writes c -> getp (this (after (run rt now c s))) k = getp (this s) k.
Proof.
  intros H. destruct c; not_in H;
    unfold run, updateTitle, updateDescription, updatePriority, assignTo,
      reassignToOwner, setCategory, addTag, removeTag, clearTags, setDueDate,
      clearDueDate, setEstimatedHours, setActualHours, addTimeSpent, addNote,
      removeNote, addDependency, removeDependency, set_tags, set_notes,
      set_dependencies, setStatus, markComplete, markIncomplete; crunch_frame.
Qed.
End Frame.

Ltac not_written :=
  cbn [writes];
  let X := fresh in
  intros X; repeat (apply elem_of_cons in X as [X|X]; [discriminate|]);
  by apply elem_of_nil in X.

Section Extras.
Variable rt : runtime.

(** X1: No call changes the identity of a task: [id], [userId] and
    [createdAt] are what the constructor (or [fromJSON]) set, whether the
    call returns or throws. *)
Theorem identity_is_immutable now c s :
  getp (this (after (run rt now c s))) "id" = getp (this s) "id"
  /\ getp (this (after (run rt now c s))) "userId" = getp (this s) "userId"
  /\ getp (this (after (run rt now c s))) "createdAt" = getp (this s) "createdAt".
Proof.
  repeat split; apply frame_run; destruct c; not_written.
Qed.

Lemma filled_string v :
  not_a_filled_string v = false ->
  exists s, v = VStr s /\ trim s <> EmptyString.
Proof.
  unfold not_a_filled_string. intros H.
  apply orb_false_iff in H as [H H3]. apply orb_false_iff in H as [H1 H2].
  destruct v; try discriminate. exists s. split; [done|].
  cbn [str_of] in H3. by apply String.eqb_neq.
Qed.

Lemma constructor_entity_inv fresh now title description userId options h t h' :
  new_Task rt fresh now title description userId options h = (Ok t, h') ->
  entity_inv t.
Proof.
  unfold new_Task, constructor. intros H.
  destruct (not_a_filled_string title) eqn:Ht; [discriminate|].
  destruct (not_a_filled_string userId) eqn:Hu; [discriminate|].
  apply filled_string in Ht as (st & -> & Ht).
  apply filled_string in Hu as (su & -> & Hu).
  cbn [str_of] in H.
  repeat (unfold_ops; simpl in *; simplify_eq; try case_match);
  unfold entity_inv; getp_simpl;
  (split; [by eexists|]); (split; [by eexists|]);
  match goal with H : negb _ = false |- _ =>
    apply negb_false_iff in H; exact H end.
Qed.

Lemma updateTitle_title now v s :
  (exists x, getp (this s) "title" = VStr x /\ x <> EmptyString) ->
  exists x, getp (this (after (updateTitle now v s))) "title" = VStr x /\ x <> EmptyString.
Proof.
  intros H. unfold updateTitle.
  destruct (not_a_filled_string v) eqn:E; [exact H|].
  apply filled_string in E as (sv & -> & E).
  unfold after, bind, setp, touch, setp, modify. cbn [snd this str_of].
  rewrite getp_insert_ne by done. rewrite getp_insert_eq. by eexists.
Qed.

Lemma updatePriority_priority now v s :
  includes validPriorities (getp (this s) "priority") = true ->
  includes validPriorities (getp (this (after (updatePriority now v s))) "priority") = true.
Proof.
  intros H. unfold updatePriority, validatePriority, bind.
  destruct (includes validPriorities v) eqn:E; cbn [negb]; [|exact H].
  unfold after, ret, setp, touch, setp, modify. cbn [snd this].
  rewrite getp_insert_ne by done. by rewrite getp_insert_eq.
Qed.

(** X2: A task made by the constructor has a non-empty string title, a
    non-empty string owner and a priority of the enumeration, and every
    mutating call keeps it so. *)
Theorem entity_invariant :
  (forall fresh now title description userId options h t h',
      new_Task rt fresh now title description userId options h = (Ok t, h') ->
      entity_inv t)
  /\ (forall now c s,
        entity_inv (this s) -> entity_inv (this (after (run rt now c s)))).
Proof.
  split; [apply constructor_entity_inv|].
  intros now c s (Ht & Hu & Hp). unfold entity_inv.
  rewrite (frame_run rt now c s "userId") by (destruct c; not_written).
  split; [|split; [exact Hu|]].
  - destruct c; try (rewrite frame_run; [exact Ht | not_written]).
    by apply updateTitle_title.
  - destruct c; try (rewrite frame_run; [exact Hp | not_written]).
    by apply updatePriority_priority.
Qed.

End Extras.

Lemma entity_invariant_witness :
  entity_inv (this Samples.fresh_task)
  /\ entity_inv (this (after (run Samples.rt0 200 (UpdateTitle (VStr " New title "))
                               Samples.fresh_task))).
Proof.
  assert (H : entity_inv (this Samples.fresh_task)).
  { exact (proj1 (entity_invariant Samples.rt0) "task_1" 100 (VStr "Write spec")
             (VStr EmptyString) (VStr "u1") ∅ empty_store
             (this Samples.fresh_task) (heap Samples.fresh_task)
             fresh_task_constructed). }
  split; [exact H|].
  exact (proj2 (entity_invariant Samples.rt0) 200 (UpdateTitle (VStr " New title "))
           Samples.fresh_task H).
Defined.

Lemma strict_eq_sym (a b : val) : strict_eq a b = strict_eq b a.
Proof.
  destruct a, b; simpl; try done.
  - by destruct b, b0.
  - apply Z.eqb_sym.
  - apply String.eqb_sym.
  - apply Nat.eqb_sym.
  - apply Nat.eqb_sym.
Qed.

Lemma strict_eq_str (s : string) : strict_eq (VStr s) (VStr s) = true.
Proof. apply String.eqb_refl. Qed.


Lemma includes_elem_of (a : list val) (x : val) : includes a x = true -> x ∈ a.
Proof.
  unfold includes. intros H. apply existsb_exists in H as (y & Hy & E).
  apply strict_eq_true in E. subst. by apply list_elem_of_In.
Qed.

Lemma includes_splice (a : list val) (x : val) (i : nat) :
  NoDup a -> indexOf a x = Some i -> includes (splice1 a i) x = false.
Proof.
  revert i. induction a as [|y r IH]; intros i Hn Hi; [discriminate|].
  apply NoDup_cons in Hn as [Hy Hn]. cbn [indexOf] in Hi.
  destruct (strict_eq y x) eqn:E.
  - injection Hi as <-. unfold splice1. cbn [take drop app].
    apply strict_eq_true in E. subst y.
    destruct (includes r x) eqn:I; [|done].
    apply includes_elem_of in I. contradiction.
  - destruct (indexOf r x) as [i'|] eqn:Hr; [|discriminate].
    injection Hi as <-. unfold splice1. cbn [take drop app].
    unfold includes. cbn [existsb]. rewrite strict_eq_sym, E. cbn [orb].
    by apply IH.
Qed.

Section Tags.
Variable rt : runtime.


Lemma hasTag_eq st s l :
  getp (this s) "_tags" = VArr l ->
  hasTag rt (VStr st) s
  = (Ok (includes (read_arr (heap s) l) (VStr (toLowerCase (trim st)))), s).
Proof.
  intros Hk. unfold hasTag, bind, toString_call, readp. cbn [to_string].
  rewrite Hk. unfold own_includes, bind, contents, ret. reflexivity.
Qed.


(** What [removeTag] computes for a string on a task whose tags are an
    array. *)
Lemma removeTag_eq now st s l :
  getp (this s) "_tags" = VArr l ->
  let n := VStr (toLowerCase (trim st)) in
  removeTag rt now (VStr st) s
  = match indexOf (read_arr (heap s) l) n with
    | Some i => (Ok tt, TState (<["updatedAt" := VDate (Some now)]> (this s))
                          (write_arr (heap s) l (splice1 (read_arr (heap s) l) i)))
    | None => (Ok tt, s)
    end.
Proof.
  intros Hk n. unfold removeTag, bind, toString_call, readp. cbn [to_string].
  rewrite Hk. unfold contents. cbn [heap this]. fold n.
  destruct (indexOf (read_arr (heap s) l) n); reflexivity.
Qed.

(** X4: Removing a tag from a task whose tags hold no duplicate returns
    normally, and the task no longer has the tag. *)
Theorem removeTag_then_hasTag now st s :
  owns s "_tags" ->
  NoDup (stored "_tags" s) ->
  outcome (removeTag rt now (VStr st) s) = Ok tt
  /\ outcome (hasTag rt (VStr st) (after (removeTag rt now (VStr st) s))) = Ok false.
Proof.
  intros (l & Hk & Hl) Hn. unfold stored in Hn. rewrite Hk in Hn.
  rewrite (removeTag_eq now st s l Hk). cbv zeta.
  set (n := VStr (toLowerCase (trim st))).
  destruct (indexOf (read_arr (heap s) l) n) as [i|] eqn:Hi;
    unfold outcome, after; cbn [fst snd]; (split; [done|]).
  - set (s' := TState _ _).
    assert (Hk' : getp (this s') "_tags" = VArr l).
    { subst s'. cbn [this]. by rewrite getp_insert_ne. }
    rewrite (hasTag_eq st s' l Hk'). fold n. cbn [fst]. f_equal.
    subst s'. cbn [heap]. rewrite read_arr_write_eq by done.
    by apply includes_splice.
  - rewrite (hasTag_eq st s l Hk). fold n. cbn [fst]. f_equal.
    clear -Hi. induction (read_arr (heap s) l) as [|y r IH]; [done|].
    cbn [indexOf] in Hi. unfold includes. cbn [existsb].
    destruct (strict_eq y n) eqn:E; [discriminate|].
    rewrite strict_eq_sym, E. cbn [orb].
    destruct (indexOf r n); [discriminate|]. by apply IH.
Qed.

End Tags.


Lemma tagged_task_owns_tags : owns Samples.tagged_task "_tags".
Proof. eexists. split; [vm_compute; reflexivity | vm_compute; lia]. Qed.

Lemma tagged_task_tags : stored "_tags" Samples.tagged_task = [VStr "docs"].
Proof. vm_compute. reflexivity. Qed.


Lemma removeTag_then_hasTag_witness :
  owns Samples.tagged_task "_tags"
  /\ NoDup (stored "_tags" Samples.tagged_task)
  /\ outcome (removeTag Samples.rt0 300 (VStr "DOCS") Samples.tagged_task) = Ok tt
  /\ outcome (hasTag Samples.rt0 (VStr "DOCS")
               (after (removeTag Samples.rt0 300 (VStr "DOCS") Samples.tagged_task)))
     = Ok false.
Proof.
  assert (N : NoDup (stored "_tags" Samples.tagged_task)).
  { rewrite tagged_task_tags. apply NoDup_singleton. }
  split; [exact tagged_task_owns_tags|]. split; [exact N|].
  exact (removeTag_then_hasTag Samples.rt0 300 "DOCS" Samples.tagged_task
           tagged_task_owns_tags N).
Defined.

Lemma addDependency_keeps_stored_witness :
  owns Samples.fresh_task "_dependencies"
  /\ stored "_dependencies" (after (addDependency 200 (VStr "task_2") Samples.fresh_task))
     = stored "_dependencies" Samples.fresh_task.
Proof.
  assert (O : owns Samples.fresh_task "_dependencies").
  { eexists. split; [vm_compute; reflexivity | vm_compute; lia]. }
  split; [exact O|].
  exact (addDependency_keeps_stored 200 (VStr "task_2") Samples.fresh_task O).
Defined.

(** *** The logic of the receiver *)

Lemma tracks_setp k v o (Φ : obj -> Prop) :
  Φ (<[k := v]> o) -> tracks o (setp k v) Φ.
Proof. intros H s <-. exact H. Qed.

Lemma tracks_ret {A} (a : A) o (Φ : obj -> Prop) : Φ o -> tracks o (ret a) Φ.
Proof. intros H s <-. exact H. Qed.

Lemma tracks_throw {A} e o (Φ : obj -> Prop) : tracks o (throw e : M tstate A) Φ.
Proof. by intros s _. Qed.

Lemma tracks_bind_setp {B} k v (rest : unit -> M tstate B) o (Φ : obj -> Prop) :
  tracks (<[k := v]> o) (rest tt) Φ -> tracks o (bind (setp k v) rest) Φ.
Proof. intros H s <-. unfold bind, setp, modify. by apply H. Qed.

Lemma tracks_bind_pure {A B} (m : M tstate A) (k : A -> M tstate B) o (Φ : obj -> Prop) :
  leaves_this m -> (forall a, tracks o (k a) Φ) -> tracks o (bind m k) Φ.
Proof.
  intros Hm Hk s Hs. unfold bind. specialize (Hm s).
  destruct (m s) as [[a|e] s1]; [|done]. apply Hk. cbn [snd] in Hm. congruence.
Qed.

Lemma tracks_if {A} (c : bool) (m1 m2 : M tstate A) o (Φ : obj -> Prop) :
  (c = true -> tracks o m1 Φ) -> (c = false -> tracks o m2 Φ) ->
  tracks o (if c then m1 else m2) Φ.
Proof. destruct c; auto. Qed.

Lemma leaves_this_const {A} (f : tstate -> result A) :
  leaves_this (fun s => (f s, s)).
Proof. by intros s. Qed.

Lemma leaves_this_ret {A} (a : A) : leaves_this (ret a : M tstate A).
Proof. by intros s. Qed.

Lemma leaves_this_throw {A} e : leaves_this (throw e : M tstate A).
Proof. by intros s. Qed.

Lemma leaves_this_new_array a : leaves_this (new_array a).
Proof. by intros s. Qed.

Lemma leaves_this_new_object o : leaves_this (new_object o).
Proof. by intros s. Qed.

Lemma leaves_this_contents l : leaves_this (contents l).
Proof. by intros s. Qed.

Lemma leaves_this_store_arr l a : leaves_this (store_arr l a).
Proof. by intros s. Qed.

Lemma leaves_this_bind {A B} (m : M tstate A) (k : A -> M tstate B) :
  leaves_this m -> (forall a, leaves_this (k a)) -> leaves_this (bind m k).
Proof.
  intros Hm Hk s. unfold bind. specialize (Hm s).
  destruct (m s) as [[a|e] s1]; cbn [snd] in *; [|done].
  rewrite <- Hm. apply Hk.
Qed.

Lemma leaves_this_if {A} (c : bool) (m1 m2 : M tstate A) :
  leaves_this m1 -> leaves_this m2 -> leaves_this (if c then m1 else m2).
Proof. by destruct c. Qed.

Lemma leaves_this_spread v : leaves_this (spread v).
Proof. destruct v; try apply leaves_this_throw; by intros s0. Qed.

Lemma leaves_this_copy_or_empty v : leaves_this (copy_or_empty v).
Proof.
  unfold copy_or_empty. apply leaves_this_bind.
  - apply leaves_this_if; [apply leaves_this_spread | apply leaves_this_ret].
  - intros a. apply leaves_this_new_array.
Qed.

(** Rules a later part adds for its own operations. *)
Ltac leaves_extra := fail.
Ltac track_extra := fail.

Ltac solve_leaves :=
  repeat first
    [ apply leaves_this_ret | apply leaves_this_throw | apply leaves_this_new_array
    | apply leaves_this_new_object | apply leaves_this_contents
    | apply leaves_this_store_arr | apply leaves_this_spread
    | apply leaves_this_copy_or_empty
    | leaves_extra
    | apply leaves_this_const
    | apply leaves_this_if
    | apply leaves_this_bind; [|intros ?]
    | match goal with |- leaves_this (match ?v with _ => _ end) => destruct v end ].

Ltac track :=
  repeat first
    [ apply tracks_bind_setp
    | apply tracks_setp
    | apply tracks_throw
    | apply tracks_ret
    | apply tracks_if; intros ?
    | track_extra
    | apply tracks_bind_pure; [solve [solve_leaves] | intros ?]
    | match goal with |- tracks _ (match ?v with _ => _ end) _ => destruct v end ].

End TaskFacts.

(** *** Validation *)

Module ValidationFacts.

Import Validation.

(** C2 (the code at the failing input): [validateTaskUpdate({priority:
    'high'})], a partial update without a title, is reported invalid with
    the title error, although its only field is valid (and sanitized to
    'high'). *)
Theorem validateTaskUpdate_demands_title (rt : runtime) (h : store) (now : Z) :
  match validateTaskUpdate rt h now {[ "priority" := VStr "high" ]} with
  | Ok v => Some (v_isValid v, v_errors v, getp (v_sanitizedData v) "priority")
  | Throw _ => None
  end = Some (false, ["title: Title is required"], VStr "high").
Proof. vm_compute. reflexivity. Qed.

(** C6 (the code at the failing input): the title 'a < b' and the
    description 'x > y' are accepted and come back unescaped; the valid
    candidate with title [1 < 2 & 'x'] gets a sanitized title in which only
    the ampersand and the apostrophes are escaped, so it still holds an
    angle bracket. *)
Theorem sanitize_keeps_angle_brackets (rt : runtime) (h : store) (now : Z) :
  validate_title (TitleStrategy 1 100) (VStr "a < b")
  = Ok (VResult true [] (VStr "a < b"))
  /\ validate_description 500 (VStr "x > y")
     = Ok (VResult true [] (VStr "x > y"))
  /\ match validateTask rt h now {[ "title" := VStr "1 < 2 & 'x'" ]} with
     | Ok v => Some (v_isValid v, getp (v_sanitizedData v) "title")
     | Throw _ => None
     end = Some (true, VStr "1 < 2 &amp; &#x27;x&#x27;")
  /\ contains_char "<" "1 < 2 &amp; &#x27;x&#x27;" = true.
Proof. vm_compute. repeat split. Qed.

(** C7, counterexample: 'urgent' and 'URGENT' are rejected. *)
Lemma validate_priority_urgent :
  validate_priority (VStr "urgent")
  = Ok (VResult false ["Priority must be one of: high, medium, low"] VUndef)
  /\ validate_priority (VStr "URGENT")
     = Ok (VResult false ["Priority must be one of: high, medium, low"] VUndef).
Proof. split; reflexivity. Qed.

Lemma includes_valid (n : string) :
  includes valid (VStr n)
  = bool_decide (n = "high" \/ n = "medium" \/ n = "low").
Proof.
  unfold includes, valid. cbn [existsb strict_eq].
  destruct (String.eqb_spec n "high"), (String.eqb_spec n "medium"),
    (String.eqb_spec n "low"); cbn [orb];
    symmetry; first [by apply bool_decide_eq_true; tauto
                    | apply bool_decide_eq_false; tauto].
Qed.

Lemma includes_validPriorities (p : val) :
  includes TaskModel.validPriorities p
  = bool_decide (p = VStr "low" \/ p = VStr "medium" \/ p = VStr "high"
                 \/ p = VStr "urgent").
Proof.
  unfold includes, TaskModel.validPriorities. cbn [existsb].
  destruct p as [| |b|n|s|d|l|l];
    try (cbn [strict_eq orb]; symmetry; apply bool_decide_eq_false;
         intros [H|[H|[H|H]]]; discriminate H).
  cbn [strict_eq].
  destruct (String.eqb_spec s "low") as [->|N1]; [done|].
  destruct (String.eqb_spec s "medium") as [->|N2]; [done|].
  destruct (String.eqb_spec s "high") as [->|N3]; [done|].
  destruct (String.eqb_spec s "urgent") as [->|N4]; [done|].
  cbn [orb]. symmetry. apply bool_decide_eq_false.
  intros [H|[H|[H|H]]]; injection H; done.
Qed.

(** C7, as amended: [validate] of the validator passes a missing or empty
    value (undefined, null, the empty string and every other falsy value)
    with the default 'medium'; a string that is not empty passes exactly
    when its trimmed, lowercased form is 'high', 'medium' or 'low' (that
    form is the sanitized value) and fails with the error 'Priority must be
    one of: high, medium, low' otherwise; a truthy value that is not a
    string makes it throw a TypeError.  [validatePriority] of the [Task]
    entity is another function: it accepts exactly 'low', 'medium', 'high'
    and 'urgent', written so, returns the value and changes nothing, and
    throws 'Invalid priority' for every other value. *)
Theorem validate_priority_spec :
  validate_priority VUndef = Ok (VResult true [] (VStr "medium"))
  /\ validate_priority VNull = Ok (VResult true [] (VStr "medium"))
  /\ validate_priority (VStr EmptyString) = Ok (VResult true [] (VStr "medium"))
  /\ (forall v,
        validate_priority v
        = match v with
          | VStr s =>
              let n := toLowerCase (trim s) in
              if String.eqb s EmptyString then Ok (VResult true [] (VStr "medium"))
              else if bool_decide (n = "high" \/ n = "medium" \/ n = "low")
              then Ok (VResult true [] (VStr n))
              else Ok (VResult false ["Priority must be one of: high, medium, low"]
                         VUndef)
          | _ =>
              if truthy v then Throw TypeError
              else Ok (VResult true [] (VStr "medium"))
          end)
  /\ (forall p s,
        TaskModel.validatePriority p s
        = (if bool_decide (p = VStr "low" \/ p = VStr "medium" \/ p = VStr "high"
                           \/ p = VStr "urgent")
           then Ok p else Throw (Error "Invalid priority"), s)).
Proof.
  split; [reflexivity|]. split; [reflexivity|]. split; [reflexivity|]. split.
  - intros v. unfold validate_priority.
    destruct v as [| |b|n|s|d|l|l]; cbn [truthy negb]; try reflexivity.
    + by destruct b.
    + by destruct (negb (n =? 0)).
    + destruct (String.eqb_spec s EmptyString) as [->|_]; [done|]. cbn [negb].
      cbv zeta. rewrite includes_valid. by destruct (bool_decide _).
  - intros p s. unfold TaskModel.validatePriority.
    rewrite includes_validPriorities. by destruct (bool_decide _).
Qed.

Lemma replace_all_self (c : ascii) (s : string) :
  replace_all c (String c EmptyString) s = s.
Proof.
  induction s as [|d r IH]; [done|]. cbn [replace_all].
  destruct (Ascii.eqb_spec d c) as [->|_]; simpl; by rewrite IH.
Qed.

Lemma contains_char_app (c : ascii) (a b : string) :
  contains_char c (a ++ b) = contains_char c a || contains_char c b.
Proof.
  induction a as [|d r IH]; [done|]. simpl.
  by rewrite IH, orb_assoc.
Qed.

(** Replacing [d] by a text without [c]: [c] occurs afterwards where it did
    before, unless it is [d] itself. *)
Lemma contains_char_replace_all (c d : ascii) (by_ s : string) :
  contains_char c by_ = false ->
  contains_char c (replace_all d by_ s)
  = if Ascii.eqb c d then false else contains_char c s.
Proof.
  intros Hb. induction s as [|e r IH]; cbn [replace_all contains_char].
  - by destruct (Ascii.eqb c d).
  - destruct (Ascii.eqb_spec e d) as [->|Hed].
    + rewrite contains_char_app, Hb, IH. cbn [orb].
      destruct (Ascii.eqb_spec c d) as [->|Hcd]; [done|].
      destruct (Ascii.eqb_spec d c) as [->|_]; [done | done].
    + cbn [contains_char]. rewrite IH.
      destruct (Ascii.eqb_spec c d) as [->|Hcd]; [|done].
      destruct (Ascii.eqb_spec e d) as [->|_]; [done | done].
Qed.

(** X7: [sanitize] escapes the ampersand and the apostrophe and nothing else:
    its result has no apostrophe, and holds '<', '>' and the double quote
    exactly when the text did. *)
Theorem sanitize_escapes_two_characters (text : string) :
  sanitize text = replace_all "'" "&#x27;" (replace_all "&" "&amp;" text)
  /\ contains_char "'" (sanitize text) = false
  /\ contains_char "<" (sanitize text) = contains_char "<" text
  /\ contains_char ">" (sanitize text) = contains_char ">" text
  /\ contains_char dquote (sanitize text) = contains_char dquote text.
Proof.
  assert (E : sanitize text
              = replace_all "'" "&#x27;" (replace_all "&" "&amp;" text)).
  { unfold sanitize. by rewrite !replace_all_self. }
  split; [exact E|]. rewrite E.
  repeat split; rewrite !contains_char_replace_all by reflexivity; reflexivity.
Qed.

Lemma ws_not_bracket (c : ascii) :
  is_ws c = true -> Ascii.eqb c "<" = false /\ Ascii.eqb c ">" = false.
Proof.
  destruct c as [[] [] [] [] [] [] [] []]; try discriminate; by split.
Qed.

Lemma closes_trim_end (s : string) : closes (trim_end s) = closes s.
Proof.
  induction s as [|c r IH]; [done|]. cbn [trim_end closes].
  destruct (trim_end r) as [|c' r'] eqn:E.
  - cbn [closes] in IH. rewrite <- IH.
    destruct (is_ws c) eqn:W.
    + apply ws_not_bracket in W as [_ ->]. done.
    + cbn [closes]. by destruct (Ascii.eqb c ">").
  - cbn [closes]. cbn [closes] in IH. by rewrite IH.
Qed.

Lemma has_html_tag_trim_end (s : string) :
  has_html_tag (trim_end s) = has_html_tag s.
Proof.
  induction s as [|c r IH]; [done|]. cbn [trim_end has_html_tag].
  pose proof (closes_trim_end r) as C.
  destruct (trim_end r) as [|c' r'] eqn:E.
  - cbn [has_html_tag closes] in IH, C. rewrite <- IH, <- C.
    destruct (is_ws c) eqn:W.
    + apply ws_not_bracket in W as [-> _]. done.
    + cbn [has_html_tag closes]. by rewrite andb_false_r.
  - cbn [has_html_tag]. rewrite C. by rewrite <- IH.
Qed.

Lemma has_html_tag_trim_start (s : string) :
  has_html_tag (trim_start s) = has_html_tag s.
Proof.
  induction s as [|c r IH]; [done|]. cbn [trim_start has_html_tag].
  destruct (is_ws c) eqn:W; [|done].
  apply ws_not_bracket in W as [-> _]. by rewrite IH.
Qed.

Lemma has_html_tag_trim (s : string) : has_html_tag (trim s) = has_html_tag s.
Proof. unfold trim. by rewrite has_html_tag_trim_end, has_html_tag_trim_start. Qed.

Lemma push_if_true (e : string) (errs : list string) :
  e ∈ push_if true e errs.
Proof. unfold push_if. apply elem_of_app. right. apply elem_of_cons. by left. Qed.

Lemma length_nonempty {A} (x : A) (l : list A) : x ∈ l -> Nat.eqb (length l) 0 = false.
Proof. destruct l; [by intros ?%elem_of_nil | done]. Qed.

(** X8: A title in which some '<' is followed, anywhere later, by a '>' is
    rejected with the error about HTML tags, whatever white space surrounds
    it and whatever the length limits are. *)
Theorem validate_title_rejects_tags (st : TitleValidationStrategy) (s : string) :
  has_html_tag s = true ->
  exists r,
    validate_title st (VStr s) = Ok r
    /\ isValid r = false
    /\ "Title cannot contain HTML tags" ∈ errors r.
Proof.
  intros H. unfold validate_title.
  assert (Hm : is_missing (VStr s) = false).
  { destruct s; [discriminate H | done]. }
  rewrite Hm, has_html_tag_trim, H.
  eexists. split; [reflexivity|]. cbn [isValid errors].
  split; [eapply length_nonempty|]; apply push_if_true.
Qed.

Lemma validate_title_rejects_tags_witness :
  has_html_tag "  <script>alert(1)</script> " = true
  /\ exists r,
       validate_title (TitleStrategy 1 100) (VStr "  <script>alert(1)</script> ") = Ok r
       /\ isValid r = false
       /\ "Title cannot contain HTML tags" ∈ errors r.
Proof.
  split; [reflexivity|].
  exact (validate_title_rejects_tags (TitleStrategy 1 100)
           "  <script>alert(1)</script> " eq_refl).
Defined.

Section ValidateTask.
Variable rt : runtime.
Variable h : store.
Variable now : Z.

Lemma record_field_errors name r a e :
  e ∈ a_errors a -> e ∈ a_errors (record_field name r a).
Proof.
  intros H. unfold record_field. destruct (negb (isValid r)); cbn [a_errors]; [|done].
  apply elem_of_app. by left.
Qed.

Lemma optional_field_errors task name validate absent a a' e :
  optional_field task name validate absent a = Ok a' ->
  e ∈ a_errors a -> e ∈ a_errors a'.
Proof.
  unfold optional_field. destruct (has_key task name).
  - destruct (validate _); [|discriminate]. intros [= <-]. apply record_field_errors.
  - by intros [= <-].
Qed.

(** X9: A candidate whose title is absent, null or empty is never valid:
    when [validateTask] returns, [isValid] is false and the errors hold
    'title: Title is required', whatever the other keys are. *)
Theorem validateTask_requires_title (task : obj) (v : validation) :
  is_missing (getp task "title") = true ->
  validateTask rt h now task = Ok v ->
  v_isValid v = false /\ "title: Title is required" ∈ v_errors v.
Proof.
  intros Hm. unfold validateTask, validate_title. rewrite Hm.
  set (a0 := record_field "title" _ _).
  assert (H0 : "title: Title is required" ∈ a_errors a0).
  { subst a0. unfold record_field. cbn. apply elem_of_cons. by left. }
  destruct (optional_field task "description" _ _ a0) as [a1|] eqn:E1; [|discriminate].
  destruct (optional_field task "priority" _ _ a1) as [a2|] eqn:E2; [|discriminate].
  destruct (optional_field task "dueDate" _ _ a2) as [a3|] eqn:E3; [|discriminate].
  intros [= <-]. cbn [v_isValid v_errors].
  assert (H3 : "title: Title is required" ∈ a_errors a3).
  { eapply optional_field_errors; [exact E3|].
    eapply optional_field_errors; [exact E2|].
    eapply optional_field_errors; [exact E1 | exact H0]. }
  split; [by eapply length_nonempty | exact H3].
Qed.

(** X10: A candidate with a valid title and none of the optional keys is valid,
    without errors; its sanitized data hold the sanitized title and the
    defaults: an empty description, priority 'medium', no due date. *)
Theorem validateTask_fills_defaults (task : obj) (r : vresult) :
  validate_title (TitleStrategy 1 100) (getp task "title") = Ok r ->
  isValid r = true ->
  has_key task "description" = false ->
  has_key task "priority" = false ->
  has_key task "dueDate" = false ->
  exists v,
    validateTask rt h now task = Ok v
    /\ v_isValid v = true /\ v_errors v = []
    /\ getp (v_sanitizedData v) "title" = sanitizedValue r
    /\ getp (v_sanitizedData v) "description" = VStr EmptyString
    /\ getp (v_sanitizedData v) "priority" = VStr "medium"
    /\ getp (v_sanitizedData v) "dueDate" = VNull.
Proof.
  intros Ht Hv Hd Hp Hu. unfold validateTask. rewrite Ht.
  unfold optional_field. rewrite Hd, Hp, Hu. unfold record_field. rewrite Hv.
  cbn [negb a_errors a_fieldResults a_sanitizedData].
  eexists. split; [reflexivity|]. cbn [v_isValid v_errors v_sanitizedData].
  repeat split; TaskFacts.getp_simpl; reflexivity.
Qed.

End ValidateTask.

Lemma validateTask_requires_title_witness :
  is_missing (getp ({[ "priority" := VStr "high" ]} : obj) "title") = true
  /\ match validateTask Samples.rt0 empty_store 0 {[ "priority" := VStr "high" ]} with
     | Ok v => v_isValid v = false /\ "title: Title is required" ∈ v_errors v
     | Throw _ => False
     end.
Proof.
  split; [reflexivity|].
  destruct (validateTask Samples.rt0 empty_store 0 {[ "priority" := VStr "high" ]})
    as [v|e] eqn:E.
  - exact (validateTask_requires_title Samples.rt0 empty_store 0
             {[ "priority" := VStr "high" ]} v eq_refl E).
  - vm_compute in E. discriminate E.
Defined.

Lemma validateTask_fills_defaults_witness :
  exists v,
    validateTask Samples.rt0 empty_store 0 {[ "title" := VStr "Write spec" ]} = Ok v
    /\ v_isValid v = true /\ v_errors v = []
    /\ getp (v_sanitizedData v) "title" = VStr "Write spec"
    /\ getp (v_sanitizedData v) "description" = VStr EmptyString
    /\ getp (v_sanitizedData v) "priority" = VStr "medium"
    /\ getp (v_sanitizedData v) "dueDate" = VNull.
Proof.
  exact (validateTask_fills_defaults Samples.rt0 empty_store 0
           {[ "title" := VStr "Write spec" ]}
           (VResult true [] (VStr "Write spec")) eq_refl eq_refl eq_refl eq_refl eq_refl).
Defined.

End ValidationFacts.

(** *** The repositories *)

Module RepositoryFacts.

Import TaskModel TaskFacts.

(** *** [task-repository.js] *)



Lemma on_task_tasks {A} (t : obj) (m : M tstate A) (r : Repository.repo) :
  Repository.tasks (snd (Repository.on_task t m r)) = Repository.tasks r
  /\ Repository.storage (snd (Repository.on_task t m r)) = Repository.storage r
  /\ Repository.events (snd (Repository.on_task t m r)) = Repository.events r.
Proof. unfold Repository.on_task. by destruct (m _) as [[a|e] s]. Qed.

Lemma all_toJSON_tasks (ts : list obj) (r : Repository.repo) :
  Repository.tasks (snd (Repository.all_toJSON ts r)) = Repository.tasks r
  /\ Repository.storage (snd (Repository.all_toJSON ts r)) = Repository.storage r
  /\ Repository.events (snd (Repository.all_toJSON ts r)) = Repository.events r.
Proof.
  revert r. induction ts as [|t ts IH]; intros r; [done|].
  cbn [Repository.all_toJSON].
  destruct (has_key t "toJSON" || has_key t "__proto__"); [done|].
  unfold bind.
  pose proof (on_task_tasks t toJSON r) as (T1 & S1 & V1).
  destruct (Repository.on_task t toJSON r) as [[j|e] r1]; cbn [snd] in *; [|done].
  pose proof (IH r1) as (T2 & S2 & V2).
  destruct (Repository.all_toJSON ts r1) as [[js|e] r2];
    unfold ret; cbn [snd] in *; repeat split; congruence.
Qed.

(** Saving never changes which tasks the repository holds. *)
Lemma saveToStorage_tasks (rt : runtime) (now : Z) (r : Repository.repo) :
  Repository.tasks (snd (Repository.saveToStorage rt now r)) = Repository.tasks r.
Proof.
  unfold Repository.saveToStorage. destruct (Repository.storage r); [|done].
  pose proof (all_toJSON_tasks (map_values (Repository.tasks r)) r) as (T & _).
  destruct (Repository.all_toJSON _ r) as [[js|e] r1]; cbn [snd] in *; [|done].
  by destruct (r0 js now).
Qed.

Lemma save_if_configured_tasks (rt : runtime) (now : Z) (r : Repository.repo) :
  Repository.tasks (snd (Repository.save_if_configured rt now r)) = Repository.tasks r.
Proof.
  unfold Repository.save_if_configured. destruct (Repository.storage r); [|done].
  apply saveToStorage_tasks.
Qed.




(** Assigning a data property stores the value, whatever the prototype of
    the task is. *)
Lemma assign_prop_data (k : string) (v : val) (s : tstate) :
  Repository.is_accessor k = false ->
  Repository.assign_prop k v s = (Ok tt, TState (<[k := v]> (this s)) (heap s)).
Proof.
  unfold Repository.is_accessor. intros Ha.
  repeat (apply orb_false_iff in Ha as [Ha ?]).
  unfold Repository.assign_prop.
  repeat match goal with H : String.eqb _ _ = false |- _ => rewrite H; clear H end.
  cbn [orb]. destruct (this s !! "__proto__") as [[]|]; reflexivity.
Qed.

Lemma object_assign_data (updates : list (string * val)) (s : tstate) :
  Forall (fun kv => Repository.is_accessor kv.1 = false) updates ->
  Repository.object_assign updates s
  = (Ok tt, TState (foldl (fun o kv => <[kv.1 := kv.2]> o) (this s) updates) (heap s)).
Proof.
  intros H. revert s. induction H as [|[k v] updates Hk _ IH]; intros s.
  - by destruct s.
  - cbn [Repository.object_assign foldl]. unfold bind at 1.
    rewrite (assign_prop_data k v s Hk). rewrite IH. reflexivity.
Qed.

Lemma getp_foldl_notin (updates : list (string * val)) (o : obj) (k : string) :
  k ∉ updates.*1 ->
  getp (foldl (fun o kv => <[kv.1 := kv.2]> o) o updates) k = getp o k.
Proof.
  revert o. induction updates as [|[k' v'] updates IH]; intros o Hk; [done|].
  cbn [foldl]. rewrite fmap_cons in Hk. apply not_elem_of_cons in Hk as [N Hk].
  rewrite IH by done. by apply getp_insert_ne.
Qed.

Lemma getp_foldl_in (updates : list (string * val)) (o : obj) (k : string) (v : val) :
  NoDup updates.*1 -> (k, v) ∈ updates ->
  getp (foldl (fun o kv => <[kv.1 := kv.2]> o) o updates) k = v.
Proof.
  revert o. induction updates as [|[k' v'] updates IH]; intros o Hn Hk.
  - by apply elem_of_nil in Hk.
  - rewrite fmap_cons in Hn. apply NoDup_cons in Hn as [N Hn]. cbn [foldl].
    apply elem_of_cons in Hk as [[= -> ->] | Hk].
    + rewrite getp_foldl_notin by done. apply getp_insert_eq.
    + by apply IH.
Qed.




(** *** The guide's repository *)










Section SimpleUpdate.

Variable rt : runtime.
Variable now : Z.
Variable updates : obj.









End SimpleUpdate.



(** *** The guide's [update], step by step *)



Ltac written s' E :=
  match type of E with
  | _ = (Ok tt, s') => injection E as <-
  | (Ok tt, _) = (Ok tt, s') => injection E as <-
  end.























Section GuideUpdate.

Variable rt : runtime.
Variable now : Z.
Variable updates : obj.




End GuideUpdate.





Lemma some_default {A} (d : A) (o : option A) :
  (match o with Some _ => true | None => false end) = true ->
  o = Some (default d o).
Proof. by destruct o. Qed.

Lemma ok_some_default {A} (d : A) (r : result (option A)) :
  (match r with Ok (Some _) => true | _ => false end) = true ->
  r = Ok (Some (match r with Ok (Some a) => a | _ => d end)).
Proof. by destruct r as [[a|]|e]. Qed.






Section MoreMapFacts.
Context {V : Type}.
Implicit Types (m : list (val * V)) (k : val).

Lemma length_map_set m k v :
  length (map_set m k v) = if map_has m k then length m else S (length m).
Proof.
  unfold map_has. induction m as [|[k0 v0] r IH]; [done|]. cbn [map_set map_get].
  destruct (strict_eq k0 k); [done|]. cbn [length]. rewrite IH.
  by destruct (map_get r k).
Qed.

Lemma map_has_set_found m k k' v v' :
  map_get m k = Some v -> map_has (map_set m k v') k' = map_has m k'.
Proof.
  unfold map_has. induction m as [|[k0 v0] r IH]; [discriminate|]. cbn [map_set map_get].
  destruct (strict_eq k0 k) eqn:E; cbn [map_get].
  - intros _. by destruct (strict_eq k0 k').
  - intros H. destruct (strict_eq k0 k'); [done | by apply IH].
Qed.


End MoreMapFacts.

Section RepoExtras.
Variable rt : runtime.



(** X12: [create] refuses a task without an id and a task whose id the
    repository already holds; either way it throws and the repository is
    unchanged (the stored task is not overwritten). *)
Theorem create_refuses now task r :
  (truthy (getp task "id") = false ->
   Repository.create rt now task r = (Throw (Error "Valid task object required"), r))
  /\ (forall t0,
        truthy (getp task "id") = true ->
        Repository.findById (getp task "id") r = Some t0 ->
        Repository.create rt now task r
        = (Throw (Error "Task with this ID already exists"), r)).
Proof.
  split.
  - intros H. unfold Repository.create. by rewrite H.
  - intros t0 H Hf. unfold Repository.create, map_has.
    unfold Repository.findById in Hf. by rewrite H, Hf.
Qed.

(** X13: The completed and the incomplete tasks partition the repository:
    their numbers add up to [count()]. *)
Theorem completed_and_incomplete_partition r :
  (length (Repository.getCompletedTasks r) + length (Repository.getIncompleteTasks r)
   = Repository.count r)%nat.
Proof.
  unfold Repository.getCompletedTasks, Repository.getIncompleteTasks,
    Repository.getAllTasks, Repository.count, map_values.
  rewrite <- (length_map snd (Repository.tasks r)).
  induction (map snd (Repository.tasks r)) as [|t ts IH]; [done|].
  rewrite !filter_cons.
  destruct (truthy (getp t "completed")) eqn:E; cbn [negb];
    repeat case_decide; try done; cbn [length]; lia.
Qed.

(** X14: [update] never adds or removes a task: the count and the set of ids
    are unchanged, whatever the updates are (even one naming [id]) and
    whether the call returns or throws. *)
Theorem update_keeps_ids now id updates r :
  Repository.count (snd (Repository.update rt now id updates r)) = Repository.count r
  /\ forall id', Repository.hasTask id' (snd (Repository.update rt now id updates r))
                 = Repository.hasTask id' r.
Proof.
  unfold Repository.update, Repository.count, Repository.hasTask.
  destruct (map_get (Repository.tasks r) id) as [t|] eqn:G; [|done].
  assert (L : forall t', length (map_set (Repository.tasks r) id t')
                         = length (Repository.tasks r)).
  { intros t'. rewrite length_map_set. unfold map_has. by rewrite G. }
  destruct (Repository.object_assign updates _) as [[[]|e] s]; cbn [snd Repository.tasks].
  - unfold bind, Repository.emit, modify, ret.
    set (r1 := Repository.Repo _ _ _ _).
    pose proof (save_if_configured_tasks rt now r1) as T.
    destruct (Repository.save_if_configured rt now r1) as [[[]|e] r2];
      cbn [snd] in *; rewrite T; subst r1; cbn [Repository.tasks];
      (split; [apply L | intros id'; by eapply map_has_set_found]).
  - split; [apply L | intros id'; by eapply map_has_set_found].
Qed.

Lemma object_assign_app (a b : list (string * val)) (s : tstate) :
  Repository.object_assign (a ++ b) s
  = match Repository.object_assign a s with
    | (Ok _, s1) => Repository.object_assign b s1
    | (Throw e, s1) => (Throw e, s1)
    end.
Proof.
  revert s. induction a as [|[k v] a IH]; intros s; [done|].
  cbn [app Repository.object_assign]. unfold bind.
  destruct (Repository.assign_prop k v s) as [[[]|e] s1]; [apply IH | done].
Qed.

Lemma lookup_foldl_notin (updates : list (string * val)) (o : obj) (k : string) :
  k ∉ updates.*1 ->
  foldl (fun o kv => <[kv.1 := kv.2]> o) o updates !! k = o !! k.
Proof.
  revert o. induction updates as [|[k' v'] updates IH]; intros o Hk; [done|].
  cbn [foldl]. rewrite fmap_cons in Hk. apply not_elem_of_cons in Hk as [N Hk].
  rewrite IH by done. by apply lookup_insert_ne.
Qed.

(** X15: [update] with a read-only name among the updates ([isOverdue],
    [daysUntilDue] and [progress] have a getter and no setter): the
    assignment throws a TypeError at that name.  The data properties given
    before it are on the stored task by then, those after it are not
    assigned; [updatedAt] is not stamped, nothing is emitted and nothing is
    saved. *)
Theorem update_stops_at_read_only now id data k v rest r t :
  Repository.findById id r = Some t ->
  t !! "__proto__" = None ->
  Repository.data_properties data ->
  k ∈ ["isOverdue"; "daysUntilDue"; "progress"] ->
  let res := Repository.update rt now id (data ++ (k, v) :: rest) r in
  fst res = Throw TypeError
  /\ Repository.events (snd res) = Repository.events r
  /\ exists t',
       Repository.findById id (snd res) = Some t'
       /\ (forall k' v', (k', v') ∈ data -> getp t' k' = v')
       /\ (forall k', k' ∉ data.*1 -> getp t' k' = getp t k').
Proof.
  intros Hf Hp [Hd Hn] Hk res. subst res.
  unfold Repository.update. unfold Repository.findById in Hf. rewrite Hf.
  rewrite object_assign_app, (object_assign_data data _ Hd). cbn [this heap].
  set (t1 := foldl _ t data).
  assert (P : t1 !! "__proto__" = None).
  { subst t1. rewrite lookup_foldl_notin; [exact Hp|].
    intros H. apply list_elem_of_fmap in H as ([k0 v0] & E & H). cbn [fst] in E. subst k0.
    rewrite Forall_forall in Hd. specialize (Hd _ H). cbn [fst] in Hd.
    discriminate Hd. }
  assert (E : Repository.object_assign ((k, v) :: rest) (TState t1 (Repository.rheap r))
              = (Throw TypeError, TState t1 (Repository.rheap r))).
  { cbn [Repository.object_assign]. unfold bind, Repository.assign_prop. cbn [this].
    rewrite P.
    repeat (apply elem_of_cons in Hk as [-> | Hk]); [done .. | by apply elem_of_nil in Hk]. }
  rewrite E. cbn [fst snd Repository.events Repository.tasks this heap].
  split; [done|]. split; [done|]. exists t1. unfold Repository.findById.
  cbn [Repository.tasks].
  split; [by eapply map_get_set_found|]. split.
  - intros k' v' H. subst t1. by apply getp_foldl_in.
  - intros k' H. subst t1. by apply getp_foldl_notin.
Qed.







End RepoExtras.

Lemma fresh_task_id : getp (this Samples.fresh_task) "id" = VStr "task_1".
Proof. vm_compute. reflexivity. Qed.

Lemma repo1_holds_task_1 :
  Repository.findById (VStr "task_1") Samples.repo1
  = Some (default ∅ (Repository.findById (VStr "task_1") Samples.repo1)).
Proof. apply some_default. vm_compute. reflexivity. Qed.

Lemma repo1_unique : unique_keys (Repository.tasks Samples.repo1).
Proof. vm_compute. split; done. Qed.


Lemma update_stops_at_read_only_witness :
  let res := Repository.update Samples.rt0 300 (VStr "task_1")
               [("title", VStr "x"); ("progress", VNum 5); ("status", VStr "done")]
               Samples.repo1 in
  fst res = Throw TypeError
  /\ exists t',
       Repository.findById (VStr "task_1") (snd res) = Some t'
       /\ getp t' "title" = VStr "x"
       /\ getp t' "status" = VStr "pending"
       /\ getp t' "updatedAt" = VDate (Some 100).
Proof.
  intros res.
  destruct (update_stops_at_read_only Samples.rt0 300 (VStr "task_1")
              [("title", VStr "x")] "progress" (VNum 5) [("status", VStr "done")]
              Samples.repo1 _ repo1_holds_task_1) as (E & _ & t' & F & G & H).
  - vm_compute. reflexivity.
  - split; [repeat constructor|]. apply (bool_decide_unpack _). vm_compute. exact I.
  - apply (bool_decide_unpack _). vm_compute. exact I.
  - split; [exact E|]. exists t'. split; [exact F|].
    split; [apply G, elem_of_cons; by left|].
    split; (rewrite H; [vm_compute; reflexivity|]);
      apply (bool_decide_unpack _); vm_compute; exact I.
Defined.

Lemma create_refuses_witness :
  Repository.create Samples.rt0 300 ∅ Samples.repo1
  = (Throw (Error "Valid task object required"), Samples.repo1)
  /\ Repository.create Samples.rt0 300 (this Samples.fresh_task) Samples.repo1
     = (Throw (Error "Task with this ID already exists"), Samples.repo1).
Proof.
  split.
  - exact (proj1 (create_refuses Samples.rt0 300 ∅ Samples.repo1) eq_refl).
  - apply (proj2 (create_refuses Samples.rt0 300 (this Samples.fresh_task) Samples.repo1)
             (default ∅ (Repository.findById (VStr "task_1") Samples.repo1))).
    + rewrite fresh_task_id. reflexivity.
    + rewrite fresh_task_id. exact repo1_holds_task_1.
Defined.

Section SimpleLogic.

Variable rt : runtime.

Lemma leaves_this_trim_call v : leaves_this (Simplified.trim_call v).
Proof. destruct v; try apply leaves_this_throw; apply leaves_this_ret. Qed.

Lemma leaves_this_validate_in valid b1 b2 v :
  leaves_this (Simplified.validate_in rt valid b1 b2 v).
Proof. intros s0. unfold Simplified.validate_in. by destruct (negb _). Qed.

Lemma leaves_this_date_or_null v : leaves_this (Simplified.date_or_null rt v).
Proof. by intros s. Qed.

Lemma tracks_bind_validate_in {B} valid b1 b2 v (k : val -> M tstate B) o
    (Φ : obj -> Prop) :
  tracks o (k v) Φ -> tracks o (bind (Simplified.validate_in rt valid b1 b2 v) k) Φ.
Proof.
  intros H s0 Hs. unfold bind, Simplified.validate_in.
  destruct (negb _); [done | by apply H].
Qed.

End SimpleLogic.

Ltac TaskFacts.leaves_extra ::=
  first [ apply leaves_this_trim_call | apply leaves_this_validate_in
        | apply leaves_this_date_or_null ].
Ltac TaskFacts.track_extra ::= apply tracks_bind_validate_in.

Section SimpleExtras.
Variable rt : runtime.

Lemma simple_updateStatus_eq now st s :
  includes Simplified.validStatuses st = true ->
  Simplified.updateStatus rt now st s
  = (Ok tt,
     let t1 := <["_status" := st]> (this s) in
     let t2 :=
       if strict_eq st (VStr "completed")
          && negb (strict_eq (getp (this s) "_status") (VStr "completed"))
       then <["_completedAt" := VDate (Some now)]> t1
       else if negb (strict_eq st (VStr "completed"))
       then <["_completedAt" := VNull]> t1
       else t1 in
     TState (<["_updatedAt" := VDate (Some now)]> t2) (heap s)).
Proof.
  intros Hv. unfold Simplified.updateStatus, bind, readp,
    Simplified._validateStatus, Simplified.validate_in. rewrite Hv. cbn [negb].
  unfold setp, modify, Simplified._updateTimestamp, setp, modify. cbn [this heap].
  destruct (strict_eq st (VStr "completed"));
    destruct (strict_eq (getp (this s) "_status") (VStr "completed"));
    reflexivity.
Qed.

Lemma simple_updateStatus_invalid now st s :
  includes Simplified.validStatuses st = false ->
  after (Simplified.updateStatus rt now st s) = s.
Proof.
  intros Hv. unfold Simplified.updateStatus, bind, readp,
    Simplified._validateStatus, Simplified.validate_in, after. by rewrite Hv.
Qed.

(** X17: [updateStatus] of the guide's task keeps [completedAt] in step with
    the status: if it was set exactly on a completed task before, it is
    afterwards; and a valid status other than 'completed' is stored as asked
    and clears [completedAt]. *)
Theorem updateStatus_keeps_completion now st s :
  (Simplified.completion_inv (this s) ->
   Simplified.completion_inv (this (after (Simplified.updateStatus rt now st s))))
  /\ (includes Simplified.validStatuses st = true ->
      strict_eq st (VStr "completed") = false ->
      getp (this (after (Simplified.updateStatus rt now st s))) "_status" = st
      /\ getp (this (after (Simplified.updateStatus rt now st s))) "_completedAt" = VNull).
Proof.
  split.
  - intros H. destruct (includes Simplified.validStatuses st) eqn:Hv.
    2:{ by rewrite simple_updateStatus_invalid. }
    rewrite simple_updateStatus_eq by done. unfold after. cbn [snd this].
    unfold Simplified.completion_inv in *.
    destruct (strict_eq st (VStr "completed")) eqn:E;
      destruct (strict_eq (getp (this s) "_status") (VStr "completed")) eqn:C;
      cbn [negb andb]; getp_simpl; rewrite ?E.
    + split; [done|]. intros _. apply H. done.
    + split; done.
    + split; [done | discriminate].
    + split; [done | discriminate].
  - intros Hv E. rewrite simple_updateStatus_eq by done. unfold after. cbn [snd this].
    rewrite E. cbn [negb andb]. by getp_simpl.
Qed.

(** What the constructor of [EnhancedTask] leaves in a task it returns. *)
Lemma constructor_fields fresh now title description ownerId options h t h' :
  Simplified.new_EnhancedTask rt fresh now title description ownerId options h
  = (Ok t, h') ->
  getp t "_id" = VStr fresh
  /\ getp t "_status" = or_else (getp options "status") (VStr "pending")
  /\ getp t "_completedAt" = VNull
  /\ getp t "_ownerId" = ownerId
  /\ getp t "_actualHours" = VNum 0.
Proof.
  unfold Simplified.new_EnhancedTask. intros H.
  assert (T : tracks ∅ (Simplified.constructor rt fresh now title description ownerId options)
                (fun t => getp t "_id" = VStr fresh
                  /\ getp t "_status" = or_else (getp options "status") (VStr "pending")
                  /\ getp t "_completedAt" = VNull
                  /\ getp t "_ownerId" = ownerId
                  /\ getp t "_actualHours" = VNum 0)).
  { unfold Simplified.constructor, Simplified._validateCategory,
      Simplified._validatePriority, Simplified._validateStatus.
    track; getp_simpl; repeat split; reflexivity. }
  specialize (T (TState ∅ h) eq_refl).
  destruct (Simplified.constructor _ _ _ _ _ _ _ _) as [[[]|e] s]; [|discriminate].
  injection H as <- <-. exact T.
Qed.

(** X18: The guide's [create(taskData)]: when it returns, the new task has the
    generated id, no completion time, and [findById] of that id returns it;
    when the constructor throws, the repository holds the tasks it held. *)
Theorem simple_create_then_findById fresh now taskData r :
  match fst (Simplified.create rt fresh now taskData r) with
  | Ok task =>
      getp task "_id" = VStr fresh
      /\ getp task "_completedAt" = VNull
      /\ Simplified.findById (VStr fresh)
           (snd (Simplified.create rt fresh now taskData r)) = Some task
  | Throw _ =>
      Simplified.tasks (snd (Simplified.create rt fresh now taskData r))
      = Simplified.tasks r
  end.
Proof.
  unfold Simplified.create.
  destruct (Simplified.new_EnhancedTask rt fresh now _ _ _ taskData (Simplified.rheap r))
    as [[t|e] h'] eqn:E; cbn [fst snd]; [|done].
  apply constructor_fields in E as (I & _ & C & _).
  split; [exact I|]. split; [exact C|].
  unfold Simplified.findById. cbn [Simplified.tasks]. rewrite I.
  apply map_get_set_new. apply strict_eq_str.
Qed.

(** X19: The constructor of the guide's task accepts [status: 'completed'] in
    its options, and the task it returns is completed without a completion
    time: [completedAt] is only set by [updateStatus] and [fromJSON]. *)
Theorem created_completed_has_no_completedAt
    fresh now title description ownerId options h t h' :
  Simplified.new_EnhancedTask rt fresh now title description ownerId options h
  = (Ok t, h') ->
  getp options "status" = VStr "completed" ->
  Simplified.isCompleted t = true /\ getp t "_completedAt" = VNull.
Proof.
  intros H Hs. apply constructor_fields in H as (_ & S & C & _).
  split; [|exact C]. unfold Simplified.isCompleted. rewrite S, Hs. reflexivity.
Qed.

End SimpleExtras.

Lemma ok_pair_default (x : result obj * store) :
  is_ok (fst x) = true ->
  x = (Ok (match fst x with Ok t => t | Throw _ => ∅ end), snd x).
Proof. by destruct x as [[t|e] h]. Qed.

Lemma updateStatus_keeps_completion_witness :
  let s := TState (default ∅ (Simplified.findById (VStr "task_1") Samples.simple1))
             (Simplified.rheap Samples.simple1) in
  Simplified.completion_inv (this s)
  /\ Simplified.completion_inv
       (this (after (Simplified.updateStatus Samples.rt0 300 (VStr "completed") s)))
  /\ getp (this (after (Simplified.updateStatus Samples.rt0 300 (VStr "blocked") s)))
       "_status" = VStr "blocked".
Proof.
  intros s.
  assert (I : Simplified.completion_inv (this s)).
  { unfold Simplified.completion_inv.
    assert (C : getp (this s) "_completedAt" = VNull) by (vm_compute; reflexivity).
    assert (S : strict_eq (getp (this s) "_status") (VStr "completed") = false)
      by (vm_compute; reflexivity).
    rewrite C, S. split; [congruence | discriminate]. }
  split; [exact I|]. split.
  - exact (proj1 (updateStatus_keeps_completion Samples.rt0 300 (VStr "completed") s) I).
  - exact (proj1 (proj2 (updateStatus_keeps_completion Samples.rt0 300 (VStr "blocked") s)
                    eq_refl eq_refl)).
Defined.

Lemma created_completed_has_no_completedAt_witness :
  let options := <["status" := VStr "completed"]> (∅ : obj) in
  let made := Simplified.new_EnhancedTask Samples.rt0 "task_2" 100 (VStr "Done")
                VUndef (VStr "u1") options empty_store in
  is_ok (fst made) = true
  /\ Simplified.isCompleted (match fst made with Ok t => t | Throw _ => ∅ end) = true
  /\ getp (match fst made with Ok t => t | Throw _ => ∅ end) "_completedAt" = VNull.
Proof.
  intros options made.
  assert (O : is_ok (fst made) = true) by (vm_compute; reflexivity).
  split; [exact O|].
  exact (created_completed_has_no_completedAt Samples.rt0 "task_2" 100 (VStr "Done")
           VUndef (VStr "u1") options empty_store _ _ (ok_pair_default made O) eq_refl).
Defined.

End RepositoryFacts.
